(** * nitransforms.resampling: a shallow embedding of [apply]

    The module under study is [nitransforms/resampling.py], whose only
    function, [apply], resamples an image onto a reference through a
    spatial transform.  The function is glue: it resolves the reference,
    loads the image, checks and pads the data array, maps the reference
    coordinates through the transform, hands the result to
    [scipy.ndimage.map_coordinates] and reshapes what comes back.

    The embedding follows the function line by line.  Exceptions are an
    explicit error type, calls into collaborators are recorded in a trace
    (so that "raised before any mapping work" is a statement about the
    trace), arrays are a shape together with the row-major list of their
    elements, and numbers are exact rationals: the rounding of
    floating-point arithmetic is left out, the conversion of a value to an
    integer element type is not. *)

From Stdlib Require Import List ZArith QArith Qround String Bool Lia Arith.
Import ListNotations.

Set Implicit Arguments.

Open Scope string_scope.
Open Scope list_scope.

(** ** Exceptions, events and the monad of [apply]

    [TransformError] is the error [apply] raises for a missing reference
    (the specification's configuration error) and [ValueError] the one for
    a component mismatch (its shape-mismatch error); numpy raises
    [ValueError] and [IndexError], scipy [RuntimeError], and the loader
    [FileNotFoundError]. *)

Inductive exn : Type :=
| TransformError (msg : string)
| ValueError (msg : string)
| RuntimeError (msg : string)
| IndexError (msg : string)
| FileNotFoundError (path : string).

Definition result (A : Type) : Type := (exn + A)%type.

(** ** numpy arrays *)

Module Np.

(** The element types of the arrays [apply] reads and returns: the
    integer types, and [float64], whose values the rationals of this
    development stand for.  A dtype specifier stands for the type it
    names; one that names no numeric type is refused by numpy or by the
    interpolation routine and has no counterpart here.  The narrower
    floating types round what they store to fewer bits and are left
    out. *)
Inductive dtype : Type :=
| uint8 | uint16 | uint32 | uint64
| int8 | int16 | int32 | int64
| float64.

(** An [ndarray]: its shape and its elements in C (row-major) order.  The
    element type is not part of the record; where it matters it travels
    next to the array. *)
Record ndarray : Type := mk { shape : list nat; flat : list Q }.

Definition ndim (a : ndarray) : nat := List.length (shape a).

Definition prod (s : list nat) : nat := fold_right Nat.mul 1%nat s.

Definition size (a : ndarray) : nat := prod (shape a).

(** The invariant of the representation. *)
Definition wf (a : ndarray) : Prop := List.length (flat a) = size a.

(** [a.shape[-1]], read only where the rank is known to be positive. *)
Definition last_dim (a : ndarray) : nat := last (shape a) 0%nat.

(** [a.shape[0]]; raises [IndexError] on a 0-d array. *)
Definition first_dim (a : ndarray) : result nat :=
  match shape a with
  | [] => inl (IndexError "tuple index out of range")
  | d :: _ => inr d
  end.

(** [a[..., np.newaxis]]. *)
Definition newaxis_last (a : ndarray) : ndarray :=
  mk (shape a ++ [1%nat]) (flat a).

(** C-order multi-index of the flat position [k] in an array of shape [s],
    and back. *)
Fixpoint unravel (s : list nat) (k : nat) : list nat :=
  match s with
  | [] => []
  | _ :: s' => (k / prod s')%nat :: unravel s' (k mod prod s')
  end.

Fixpoint ravel (s idx : list nat) : nat :=
  match s, idx with
  | _ :: s', i :: idx' => (i * prod s' + ravel s' idx')%nat
  | _, _ => 0%nat
  end.

(** [a.T]: the axes reversed. *)
Definition T (a : ndarray) : ndarray :=
  let s' := rev (shape a) in
  mk s' (map (fun k => nth (ravel (shape a) (rev (unravel s' k))) (flat a) 0%Q)
             (seq 0 (prod s'))).

(** [a.reshape(dims)].  numpy takes any negative entry as the one
    dimension to infer. *)
Definition known (dims : list Z) : Z :=
  fold_right (fun d acc => if (d <? 0)%Z then acc else (d * acc)%Z) 1%Z dims.

Definition unknowns (dims : list Z) : nat :=
  List.length (filter (fun d => (d <? 0)%Z) dims).

Definition reshape (a : ndarray) (dims : list Z) : result ndarray :=
  let n := Z.of_nat (size a) in
  let k := known dims in
  match unknowns dims with
  | O =>
      if (k =? n)%Z then inr (mk (map Z.to_nat dims) (flat a))
      else inl (ValueError "cannot reshape array")
  | S O =>
      if (k =? 0)%Z || negb (n mod k =? 0)%Z
      then inl (ValueError "cannot reshape array")
      else inr (mk (map (fun d => if (d <? 0)%Z then Z.to_nat (n / k) else Z.to_nat d) dims)
                   (flat a))
  | _ => inl (ValueError "can only specify one unknown dimension")
  end.

(** A shape as the tuple of Python integers [reshape] takes. *)
Definition dims_of (s : list nat) : list Z := map Z.of_nat s.

End Np.

Import Np.

(** ** Images, grids, references and transforms

    The classes below live in [nitransforms.base] and in nibabel; [apply]
    only uses the attributes listed in each record. *)

(** A homogeneous matrix, as the list of its rows. *)
Definition matrix : Type := list (list Q).

(** An image header: its on-disk element type and the rest, opaque. *)
Record header : Type := mk_header { hdr_dtype : dtype; hdr_rest : string }.

(** [hdr.copy()] followed by [hdr.set_data_dtype(dt)]. *)
Definition set_data_dtype (h : header) (dt : dtype) : header :=
  mk_header dt (hdr_rest h).

(** A nibabel spatial image: [dataobj] with the element type of
    [np.asanyarray(dataobj)] (the "effective dtype" of the docstring:
    [float64] when the data is scaled, the stored type otherwise),
    [affine], the inverse of the affine (numpy computes it on demand; the
    spec requires the affine to be invertible), [header] and
    [get_data_dtype()], the on-disk type. *)
Record SpatialImage : Type := mk_image {
  dataobj : ndarray;
  dataobj_dtype : dtype;
  affine : matrix;
  inverse : matrix;
  img_header : option header;
  get_data_dtype : dtype
}.

(** Modelled from the spec: the class [ImageGrid] of [nitransforms.base],
    which [resampling.py] imports and whose code is missing.  "Grid: an
    N-dimensional sampling lattice.  Attributes:
    shape (one per spatial axis), affine (a (D+1)x(D+1) homogeneous matrix
    mapping index coordinates to world coordinates), optional header.
    Invariant: affine is invertible." *)
Record ImageGrid : Type := mk_grid {
  g_shape : list nat;
  g_affine : matrix;
  g_inverse : matrix;
  g_header : option header
}.

(** Modelled from the spec: a reference that is not a grid (a surface, a
    set of sampled points) only enumerates its coordinates, a [(D, N)]
    array, and knows its dimensionality. *)
Record SampledSpatialData : Type := mk_samples {
  s_ndcoords : ndarray;
  s_ndim : nat
}.

Inductive SpatialReference : Type :=
| RefGrid (g : ImageGrid)
| RefSamples (s : SampledSpatialData).

(** What a caller may pass for [reference] and [spatialimage]: a path
    ([str] or [Path]) or an object. *)
Inductive pyref : Type :=
| RPath (p : string)
| RImage (img : SpatialImage)
| RGrid (g : ImageGrid)
| RSamples (s : SampledSpatialData).

Inductive pyimage : Type :=
| IPath (p : string)
| IObj (img : SpatialImage).

(** The dense field a model-based transform generates: it has [map]. *)
Record DenseField : Type := mk_field {
  fld_map : ndarray -> result ndarray
}.

(** A transform, as [apply] sees it: [reference], [ndim], [len()], [map],
    and [to_field] when the attribute exists and is callable. *)
Record Transform : Type := mk_transform {
  tf_reference : option SpatialReference;
  tf_ndim : nat;
  tf_len : nat;
  tf_map : ndarray -> result ndarray;
  tf_to_field : option (option pyref -> result DenseField)
}.

(** The calls [apply] makes into its collaborators. *)
Inductive event : Type :=
| EvLoad (path : string)
| EvToField (reference : option pyref)
| EvFieldMap
| EvMap
| EvIndex
| EvMapCoordinates (input_shape coords_shape : list nat)
| EvPrefilter
| EvInterpolate.

(** A computation: the calls made so far, and an exception or a value. *)
Definition M (A : Type) : Type := (list event * result A)%type.

Definition ret {A} (a : A) : M A := ([], inr a).

Definition raise {A} (e : exn) : M A := ([], inl e).

Definition bind {A B} (m : M A) (f : A -> M B) : M B :=
  match m with
  | (t, inl e) => (t, inl e)
  | (t, inr a) => let (t', r) := f a in (t ++ t', r)
  end.

(** A call into a collaborator: recorded, then its outcome. *)
Definition call {A} (ev : event) (r : result A) : M A := ([ev], r).

(** A numpy operation that may raise, not recorded. *)
Definition lift {A} (r : result A) : M A := ([], r).

Notation "x <- m ;; k" := (bind m (fun x => k))
  (at level 61, m at next level, right associativity).
Notation "m ;;; k" := (bind m (fun _ => k))
  (at level 61, right associativity).

Definition trace {A} (m : M A) : list event := fst m.
Definition outcome {A} (m : M A) : result A := snd m.

(** ** The helpers of [nitransforms.base] *)

Module Base.

(** [n] consecutive rows of [k] elements. *)
Fixpoint chunks (k n : nat) (l : list Q) : list (list Q) :=
  match n with
  | O => []
  | S n' => firstn k l :: chunks k n' (skipn k l)
  end.

(** The [(D, M)] array whose columns are the [M] points [pts]. *)
Definition columns (D : nat) (pts : list (list Q)) : ndarray :=
  mk [D; List.length pts]
     (List.concat (map (fun d => map (fun p => nth d p 0%Q) pts) (seq 0 D))).

Definition dot (u v : list Q) : Q :=
  fold_right Qplus 0%Q (map (fun uv => (fst uv * snd uv)%Q) (combine u v)).

Definition mat_vec (m : matrix) (v : list Q) : list Q :=
  map (fun row => dot row v) m.

Definition atleast_2d (a : ndarray) : ndarray :=
  match shape a with
  | [] => mk [1%nat; 1%nat] (flat a)
  | [k] => mk [1%nat; k] (flat a)
  | _ => a
  end.

(** Modelled from the spec: the helper [_as_homogeneous(xyz, dim)] of
    [nitransforms.base], whose code is missing.  A coordinate set is "an
    ordered sequence of D-dimensional (or homogeneous D+1) points", and the
    homogeneous form has "one (D+1)-vector per sample, 1 in the last
    slot": points that already have [dim + 1] slots are left alone, any
    other gets a 1 appended. *)
Definition as_homogeneous (xyz : ndarray) (dim : nat) : ndarray :=
  let xyz := atleast_2d xyz in
  let k := last_dim xyz in
  if (k =? dim + 1)%nat then xyz
  else
    let lead := removelast (shape xyz) in
    mk (lead ++ [S k])
       (List.concat (map (fun p => p ++ [1%Q]) (chunks k (prod lead) (flat xyz)))).

(** The default of [dim] in [_as_homogeneous]: three spatial axes. *)
Definition default_dim : nat := 3.

(** Modelled from the spec: [ImageGrid(image)] takes the image's spatial
    axes (the first three), its affine and its header. *)
Definition grid_of_image (image : SpatialImage) : ImageGrid :=
  mk_grid (firstn 3 (shape (dataobj image))) (affine image) (inverse image)
          (img_header image).

Definition g_ndim (g : ImageGrid) : nat := List.length (g_shape g).

Definition g_npoints (g : ImageGrid) : nat := prod (g_shape g).

(** Modelled from the spec: [ndcoords], "the reference grid's world
    coordinates ... in row-major iteration order over the grid's shape":
    the affine applied to every index in homogeneous form, the
    homogeneous slot dropped, as a [(D, N)] array. *)
Definition grid_ndcoords (g : ImageGrid) : ndarray :=
  columns (g_ndim g)
    (map (fun n =>
            firstn (g_ndim g)
              (mat_vec (g_affine g)
                 (map (fun i => inject_Z (Z.of_nat i)) (unravel (g_shape g) n) ++ [1%Q])))
         (seq 0 (g_npoints g))).

(** Modelled from the spec: [ImageGrid.index(x)], "index =
    inverse(affine) . world, truncating the homogeneous component".  The
    points are the rows of [x], homogeneous; the result has one row per
    axis, the layout [map_coordinates] takes. *)
Definition index (g : ImageGrid) (x : ndarray) : result ndarray :=
  match shape x with
  | [m; k] =>
      if (k =? S (g_ndim g))%nat
      then inr (columns (g_ndim g)
                  (map (fun p => firstn (g_ndim g) (mat_vec (g_inverse g) p))
                       (chunks k m (flat x))))
      else inl (ValueError "shapes not aligned")
  | _ => inl (ValueError "shapes not aligned")
  end.

Definition ndcoords (r : SpatialReference) : ndarray :=
  match r with
  | RefGrid g => grid_ndcoords g
  | RefSamples s => s_ndcoords s
  end.

Definition ref_ndim (r : SpatialReference) : nat :=
  match r with
  | RefGrid g => g_ndim g
  | RefSamples s => s_ndim s
  end.

End Base.

Import Base.

(** ** The file system behind [nibabel.load] *)

Definition files : Type := string -> option SpatialImage.

(** [_nbload(str(path))]. *)
Definition _nbload (fs : files) (p : string) : M SpatialImage :=
  call (EvLoad p)
       (match fs p with
        | Some img => inr img
        | None => inl (FileNotFoundError p)
        end).

(** Modelled from the spec: [SpatialReference.factory], which "builds a
    Grid from an image-like object, a path, or an existing Grid"; another
    spatial object is kept as it is. *)
Definition factory (fs : files) (reference : pyref) : M SpatialReference :=
  match reference with
  | RPath p => img <- _nbload fs p ;; ret (RefGrid (grid_of_image img))
  | RImage img => ret (RefGrid (grid_of_image img))
  | RGrid g => ret (RefGrid g)
  | RSamples s => ret (RefSamples s)
  end.

(** ** [scipy.ndimage.map_coordinates]

    The library routine is not part of the repository.  Its argument
    checks, the element type of its result, the boundary modes and the
    order-0 lookup follow the library's documentation; the value of a
    spline of order 1 to 5 at a point (floating-point code, with its
    prefilter) is a parameter of the development, so that whatever is
    proved holds for any such value. *)

Module Ndi.

Inductive extend_mode : Type :=
| Nearest | Wrap | Reflect | Mirror | Constant | GridWrap | GridConstant.

(** [_ni_support._extend_mode_to_code]: the five modes [apply] documents
    and the three the library has besides; [grid-mirror] is another name
    of [reflect]. *)
Definition _extend_mode_to_code (mode : string) : option extend_mode :=
  if (mode =? "nearest")%string then Some Nearest
  else if (mode =? "wrap")%string then Some Wrap
  else if (mode =? "reflect")%string || (mode =? "grid-mirror")%string
  then Some Reflect
  else if (mode =? "mirror")%string then Some Mirror
  else if (mode =? "constant")%string then Some Constant
  else if (mode =? "grid-wrap")%string then Some GridWrap
  else if (mode =? "grid-constant")%string then Some GridConstant
  else None.

(** [_ni_support._get_output]: the result has the element type [output]
    names, and the input's when none is given. *)
Definition _get_output (output : option dtype) (input_dtype : dtype) : dtype :=
  match output with
  | Some dt => dt
  | None => input_dtype
  end.

(** The least and the greatest value of an integer type; [None] for a
    floating one. *)
Definition int_range (dt : dtype) : option (Z * Z) :=
  match dt with
  | uint8 => Some (0, 255)
  | uint16 => Some (0, 65535)
  | uint32 => Some (0, 4294967295)
  | uint64 => Some (0, 18446744073709551615)
  | int8 => Some (-128, 127)
  | int16 => Some (-32768, 32767)
  | int32 => Some (-2147483648, 2147483647)
  | int64 => Some (-9223372036854775808, 9223372036854775807)
  | float64 => None
  end%Z.

(** The C conversion of a double to an integer: the fraction is dropped. *)
Definition truncate (t : Q) : Z :=
  if Qle_bool 0 t then Qfloor t else Qceiling t.

(** How the routine stores a computed value [t] in an output of element
    type [dt]: as it is in a floating output; in an integer one, moved by
    one half away from zero (an unsigned type takes 0 for a value that is
    not positive), clipped to the range of the type, the fraction
    dropped. *)
Definition interp_out (dt : dtype) (t : Q) : Q :=
  match int_range dt with
  | None => t
  | Some (lo, hi) =>
      let t := if Qle_bool t 0
               then (if (lo <? 0)%Z then t - (1 # 2) else 0)
               else t + (1 # 2) in
      let t := if Qle_bool t (inject_Z hi) then t else inject_Z hi in
      let t := if Qle_bool (inject_Z lo) t then t else inject_Z lo in
      inject_Z (truncate t)
  end.

(** The sample nearest to a coordinate: [floor(c + 0.5)]. *)
Definition round_half_up (c : Q) : Z := Qfloor (c + (1 # 2)).

(** An integer position off the array folded back into [0, len - 1]:
    nearest [a a | a b c d | d d], reflect [b a | a b c d | d c],
    mirror [c b | a b c d | c b], wrap with first and last point
    overlapping, grid-wrap [c d | a b c d | a b].  A position on the
    array is left alone. *)
Definition fold_index (m : extend_mode) (len i : Z) : Z :=
  if (0 <=? i)%Z && (i <? len)%Z then i
  else
    match m with
    | Nearest | Constant | GridConstant => Z.max 0 (Z.min (len - 1) i)
    | Reflect =>
        let j := (i mod (2 * len))%Z in
        if (j <? len)%Z then j else (2 * len - 1 - j)%Z
    | Mirror =>
        if (len <=? 1)%Z then 0%Z
        else let j := (i mod (2 * len - 2))%Z in
             if (j <? len)%Z then j else (2 * len - 2 - j)%Z
    | Wrap =>
        if (len <=? 1)%Z then 0%Z else (i mod (len - 1))%Z
    | GridWrap => (i mod len)%Z
    end.

(** A coordinate is out of bounds along an axis of [len] samples when it
    lies outside [0, len - 1]. *)
Definition out_of_bounds (len : nat) (c : Q) : bool :=
  negb (Qle_bool 0 c && Qle_bool c (inject_Z (Z.of_nat len - 1))).

(** A coordinate is off the grid along an axis of [len] samples when the
    sample nearest to it is none of the [len] stored ones. *)
Definition off_grid (len : nat) (c : Q) : bool :=
  (round_half_up c <? 0)%Z || (Z.of_nat len <=? round_half_up c)%Z.

(** The sample read along one axis at order 0; [None] is the constant
    fill: in mode constant for every coordinate beyond the edges, in mode
    grid-constant for every coordinate whose nearest sample is off the
    grid. *)
Definition locate (m : extend_mode) (len : nat) (c : Q) : option nat :=
  match m with
  | Constant =>
      if out_of_bounds len c then None
      else Some (Z.to_nat (fold_index m (Z.of_nat len) (round_half_up c)))
  | GridConstant =>
      if off_grid len c then None
      else Some (Z.to_nat (fold_index m (Z.of_nat len) (round_half_up c)))
  | _ => Some (Z.to_nat (fold_index m (Z.of_nat len) (round_half_up c)))
  end.

Fixpoint locate_all (m : extend_mode) (s : list nat) (pt : list Q)
  : option (list nat) :=
  match s, pt with
  | len :: s', c :: pt' =>
      match locate m len c, locate_all m s' pt' with
      | Some i, Some idx => Some (i :: idx)
      | _, _ => None
      end
  | _, _ => Some []
  end.

(** Order 0: one stored sample, or the fill value. *)
Definition nearest_sample (m : extend_mode) (input : ndarray) (cval : Q)
           (pt : list Q) : Q :=
  match locate_all m (shape input) pt with
  | Some idx => nth (ravel (shape input) idx) (flat input) 0%Q
  | None => cval
  end.

(** Column [j] of a coordinate array: one coordinate per axis of the
    input. *)
Definition point (coordinates : ndarray) (j : nat) : list Q :=
  let n := prod (tl (shape coordinates)) in
  map (fun d => nth (d * n + j) (flat coordinates) 0%Q)
      (seq 0 (hd 0%nat (shape coordinates))).

(** The value of a spline of order 1..5: order, whether the input was
    prefiltered, mode, fill value, input, point. *)
Definition kernel : Type :=
  Z -> bool -> extend_mode -> Q -> ndarray -> list Q -> Q.

End Ndi.

Import Ndi.

Section Resampling.

Variable bspline : kernel.

(** [ndi.map_coordinates(input, coordinates, output, order, mode, cval,
    prefilter)]; [input_dtype] is [input.dtype].  The order is checked
    first, then the ranks and the shape of the coordinate array (one row
    per axis of the input), then the mode; the input is prefiltered when
    [prefilter] is set and the order is above 1; the result has the shape
    [coordinates.shape[1:]] and the element type [output] names (the
    input's when it is [None]), to which every value, the fill value
    included, is converted as it is stored. *)
Definition map_coordinates (input : ndarray) (input_dtype : dtype)
           (coordinates : ndarray)
           (output : option dtype) (order : Z) (mode : string) (cval : Q)
           (prefilter : bool) : M ndarray :=
  call (EvMapCoordinates (shape input) (shape coordinates)) (inr tt) ;;;
  if (order <? 0)%Z || (5 <? order)%Z
  then raise (RuntimeError "spline order not supported")
  else
    let output_shape := tl (shape coordinates) in
    if (ndim input <? 1)%nat || (List.length output_shape <? 1)%nat
    then raise (RuntimeError "input and output rank must be > 0")
    else if negb (hd 0%nat (shape coordinates) =? ndim input)%nat
    then raise (RuntimeError "invalid shape for coordinate array")
    else
      let output := _get_output output input_dtype in
      match _extend_mode_to_code mode with
      | None => raise (RuntimeError "boundary mode not supported")
      | Some m =>
          let filtered := prefilter && (1 <? order)%Z in
          (if filtered then call EvPrefilter (inr tt) else ret tt) ;;;
          call EvInterpolate
            (inr (mk output_shape
                    (map (fun j =>
                            interp_out output
                              (if (order =? 0)%Z
                               then nearest_sample m input cval (point coordinates j)
                               else bspline order filtered m cval input
                                            (point coordinates j)))
                         (seq 0 (prod output_shape)))))
      end.

(** ** [apply], by stages *)

(** Lines 76-86: the reference, loaded when it is a path, and the
    effective reference. *)
Definition resolve_reference (fs : files) (transform : Transform)
           (reference : option pyref) : M (option pyref * SpatialReference) :=
  reference <- match reference with
               | Some (RPath p) => img <- _nbload fs p ;; ret (Some (RImage img))
               | _ => ret reference
               end ;;
  _ref <- match reference with
          | None => ret (tf_reference transform)
          | Some r => g <- factory fs r ;; ret (Some g)
          end ;;
  match _ref with
  | None => raise (TransformError "Cannot apply transform without reference")
  | Some _ref => ret (reference, _ref)
  end.

(** Lines 88-89. *)
Definition load_image (fs : files) (spatialimage : pyimage) : M SpatialImage :=
  match spatialimage with
  | IPath p => _nbload fs p
  | IObj img => ret img
  end.

(** Lines 93-96. *)
Definition check_components (transform : Transform) (data : ndarray) : M unit :=
  if (ndim data =? 4)%nat && negb (last_dim data =? tf_len transform)%nat
  then raise (ValueError
    "The fourth dimension of the data does not match the tranform's shape.")
  else ret tt.

(** Lines 98-99. *)
Definition pad_components (transform : Transform) (data : ndarray) : ndarray :=
  if (ndim data <? tf_ndim transform)%nat then newaxis_last data else data.

(** Lines 101-112. *)
Definition map_targets (transform : Transform) (spatialimage : SpatialImage)
           (reference : option pyref) (_ref : SpatialReference) : M ndarray :=
  match tf_to_field transform with
  | Some to_field =>
      field <- call (EvToField reference) (to_field reference) ;;
      y <- call EvFieldMap (fld_map field (T (ndcoords _ref))) ;;
      call EvIndex
        (index (grid_of_image spatialimage) (as_homogeneous y (ref_ndim _ref)))
  | None =>
      y <- call EvMap (tf_map transform (T (ndcoords _ref))) ;;
      call EvIndex
        (index (grid_of_image spatialimage) (as_homogeneous y (ref_ndim _ref)))
  end.

(** Lines 114-115. *)
Definition volume_targets (transform : Transform) (targets : ndarray) : M ndarray :=
  if (tf_ndim transform =? 4)%nat
  then
    d <- lift (first_dim targets) ;;
    r <- lift (reshape targets [(-2)%Z; Z.of_nat d]) ;;
    ret (T (as_homogeneous r default_dim))
  else ret targets.

(** What [apply] returns: an image built by [spatialimage.__class__] from
    an array, an affine and a header, or the bare array. *)
Inductive resampled : Type :=
| Moved (data : ndarray) (aff : matrix) (hdr : option header)
| Bare (data : ndarray).

Definition result_array (r : resampled) : ndarray :=
  match r with
  | Moved a _ _ => a
  | Bare a => a
  end.

(** Lines 127-139; [data] is the padded array. *)
Definition assemble (spatialimage : SpatialImage) (_ref : SpatialReference)
           (data res : ndarray) (output_dtype : option dtype) : M resampled :=
  match _ref with
  | RefGrid g =>
      let hdr :=
        match g_header g with
        | None => None
        | Some h =>
            Some (set_data_dtype h
                    (match output_dtype with
                     | Some dt => dt
                     | None => get_data_dtype spatialimage
                     end))
        end in
      moved <- lift (reshape res
                       (if (ndim data <? 4)%nat then dims_of (g_shape g)
                        else dims_of (g_shape g) ++ [(-1)%Z])) ;;
      ret (Moved moved (g_affine g) hdr)
  | RefSamples _ => ret (Bare res)
  end.

(** Lines 101-139: the mapping, the interpolation and the assembly, on
    the data already checked and padded. *)
Definition interpolate (transform : Transform) (spatialimage : SpatialImage)
           (reference : option pyref) (_ref : SpatialReference) (data : ndarray)
           (order : Z) (mode : string) (cval : Q) (prefilter : bool)
           (output_dtype : option dtype) : M resampled :=
  targets <- map_targets transform spatialimage reference _ref ;;
  targets <- volume_targets transform targets ;;
  res <- map_coordinates data (dataobj_dtype spatialimage) targets output_dtype
                         order mode cval prefilter ;;
  assemble spatialimage _ref data res output_dtype.

Definition apply (fs : files) (transform : Transform) (spatialimage : pyimage)
           (reference : option pyref) (order : Z) (mode : string) (cval : Q)
           (prefilter : bool) (output_dtype : option dtype) : M resampled :=
  rr <- resolve_reference fs transform reference ;;
  let reference := fst rr in
  let _ref := snd rr in
  spatialimage <- load_image fs spatialimage ;;
  let data := dataobj spatialimage in
  check_components transform data ;;;
  let data := pad_components transform data in
  interpolate transform spatialimage reference _ref data
              order mode cval prefilter output_dtype.

End Resampling.

(** ** Concrete inputs

    The inputs the examples below run on.  The examples with the kernel
    [no_blend] evaluate no spline of order 1 or more: the kernel is never
    consulted and only closes the calls.  The kernel [at_sample] takes at
    every point the value of the nearest stored sample; it stands for a
    spline where all that matters is that a spline through the samples
    takes, at the coordinates of a sample, the value of that sample. *)

Module Examples.

Definition no_blend : kernel := fun _ _ _ cval _ _ => cval.

Definition at_sample : kernel :=
  fun _ _ m cval input pt => nearest_sample m input cval pt.

Definition no_files : files := fun _ => None.

Definition eye4 : matrix :=
  [[1; 0; 0; 0]; [0; 1; 0; 0]; [0; 0; 1; 0]; [0; 0; 0; 1]]%Q.

(** A grid with a single sample and the identity affine. *)
Definition unit_grid : ImageGrid := mk_grid [1; 1; 1]%nat eye4 eye4 None.

(** A 3x3x3 volume of ones. *)
Definition ones333 : SpatialImage :=
  mk_image (mk [3; 3; 3]%nat (repeat 1%Q 27)) float64 eye4 eye4 None float64.

(** A single-sample volume, and one with three components. *)
Definition vol1 : SpatialImage :=
  mk_image (mk [1; 1; 1]%nat [7]%Q) float64 eye4 eye4 None float64.

Definition vol3 : SpatialImage :=
  mk_image (mk [1; 1; 1; 3]%nat [10; 20; 30]%Q) float64 eye4 eye4 None float64.

(** A translation: every point moved by [t]. *)
Definition translate (t : list Q) (x : ndarray) : result ndarray :=
  inr (mk (shape x)
          (List.concat
             (map (fun p => map (fun c => (fst c + snd c)%Q) (combine p t))
                  (chunks (last_dim x) (prod (removelast (shape x))) (flat x))))).

(** A series of [n] identity mappings: the points, [n] times over. *)
Definition stack (n : nat) (x : ndarray) : result ndarray :=
  inr (mk ((n * hd 0 (shape x))%nat :: tl (shape x))
          (List.concat (repeat (flat x) n))).

Definition shift (reference : option SpatialReference) : Transform :=
  mk_transform reference 3 1 (translate [-1; 0; 0]%Q) None.

Definition series (ndim n : nat) (reference : option SpatialReference) : Transform :=
  mk_transform reference ndim n (stack n) None.

(** A model-based transform: its [map] fails, its field is the identity. *)
Definition modelled (reference : option SpatialReference) : Transform :=
  mk_transform reference 3 1
    (fun _ => inl (RuntimeError "map is not to be called"))
    (Some (fun _ => inr (mk_field (fun x => inr x)))).

Definition one_file : files :=
  fun p => if (p =? "ref.nii")%string then Some vol1 else None.



(** The identity: every point mapped to itself. *)
Definition identity (reference : option SpatialReference) : Transform :=
  mk_transform reference 3 1 (fun x => inr x) None.

(** Two samples along the first axis, on a grid with a spacing of 2
    along that axis and its origin at 1. *)
Definition spaced : matrix :=
  [[2; 0; 0; 1]; [0; 1; 0; 0]; [0; 0; 1; 0]; [0; 0; 0; 1]]%Q.

Definition spaced_inv : matrix :=
  [[1 # 2; 0; 0; - (1 # 2)]; [0; 1; 0; 0]; [0; 0; 1; 0]; [0; 0; 0; 1]]%Q.

Definition pair : SpatialImage :=
  mk_image (mk [2; 1; 1]%nat [10; 20]%Q) float64 spaced spaced_inv None float64.

End Examples.

(** ** Properties *)

Definition is_load (ev : event) : bool :=
  match ev with EvLoad _ => true | _ => false end.

Definition is_mapping (ev : event) : bool :=
  match ev with
  | EvToField _ | EvFieldMap | EvMap | EvIndex => true
  | _ => false
  end.

Definition is_numeric (ev : event) : bool :=
  match ev with EvPrefilter | EvInterpolate => true | _ => false end.

(** The boundary modes [apply] documents. *)
Definition modes : list string :=
  ["constant"; "nearest"; "reflect"; "mirror"; "wrap"].

(** The boundary modes the interpolation routine knows: the documented
    ones and [grid-mirror], [grid-wrap], [grid-constant]. *)
Definition accepted_modes : list string :=
  ["nearest"; "wrap"; "reflect"; "grid-mirror"; "mirror"; "constant";
   "grid-wrap"; "grid-constant"].

(** The reference as [to_field] receives it: a path has been replaced by
    the image loaded from it. *)
Definition loaded_reference (fs : files) (reference : option pyref) : option pyref :=
  match reference with
  | Some (RPath p) =>
      match fs p with
      | Some img => Some (RImage img)
      | None => reference
      end
  | _ => reference
  end.

(** The coordinates a transform yields, through its field when it has one. *)
Definition dense_map (transform : Transform) (reference : option pyref)
           (x : ndarray) : result ndarray :=
  match tf_to_field transform with
  | Some to_field =>
      match to_field reference with
      | inl e => inl e
      | inr field => fld_map field x
      end
  | None => tf_map transform x
  end.

(** The number of points of a coordinate array: its rows. *)
Definition rows (y : ndarray) : nat := hd 0%nat (shape (atleast_2d y)).

(** Whether the result gets a trailing axis, by the rank of the source
    array and the transform's [ndim]: the padded array has rank 4 or more. *)
Definition has_trailing_axis (rank tf_ndim : nat) : Prop :=
  (4 <= rank \/ (rank = 3 /\ 3 < tf_ndim))%nat.

(** Whether a point lies beyond the edges of an array of shape [s] along
    some axis. *)
Definition beyond_edges (s : list nat) (pt : list Q) : bool :=
  existsb (fun lc => out_of_bounds (fst lc) (snd lc)) (combine s pt).

(** Whether the sample nearest to a point is off an array of shape [s]
    along some axis. *)
Definition off_the_grid (s : list nat) (pt : list Q) : bool :=
  existsb (fun lc => off_grid (fst lc) (snd lc)) (combine s pt).

Definition with_map (transform : Transform) (m : ndarray -> result ndarray) : Transform :=
  mk_transform (tf_reference transform) (tf_ndim transform) (tf_len transform) m
               (tf_to_field transform).

(** The same transform with another reference of its own. *)
Definition with_reference (transform : Transform) (r : option SpatialReference)
  : Transform :=
  mk_transform r (tf_ndim transform) (tf_len transform) (tf_map transform)
               (tf_to_field transform).

(** The same transform with another length. *)
Definition with_len (transform : Transform) (n : nat) : Transform :=
  mk_transform (tf_reference transform) (tf_ndim transform) n (tf_map transform)
               (tf_to_field transform).

(** The index coordinates of the sample at position [j], in row-major
    order, of an array or a grid of shape [s]. *)
Definition grid_point (s : list nat) (j : nat) : list Q :=
  map (fun i => inject_Z (Z.of_nat i)) (unravel s j).

(** The kernel reproduces the samples of [input]: at the coordinates of
    a stored sample the spline, on the prefiltered array when the order
    is above 1, takes the value of that sample. *)
Definition reproduces (bspline : kernel) (order : Z) (m : extend_mode) (cval : Q)
           (input : ndarray) : Prop :=
  forall j pt,
    (j < size input)%nat ->
    Forall2 Qeq pt (grid_point (shape input) j) ->
    bspline order (1 <? order)%Z m cval input pt == nth j (flat input) 0.

(** [inv] undoes [aff] on a grid of shape [s]: the index coordinates of
    the world coordinates of a grid point are that grid point. *)
Definition inverts (inv aff : matrix) (s : list nat) : Prop :=
  forall j,
    (j < prod s)%nat ->
    Forall2 Qeq
      (firstn (List.length s)
         (mat_vec inv
            (firstn (List.length s) (mat_vec aff (grid_point s j ++ [1])) ++ [1])))
      (grid_point s j).

(** The array holds values of the element type [dt]: stored again, they
    are unchanged. *)
Definition holds (dt : dtype) (a : ndarray) : Prop :=
  Forall (fun v => interp_out dt v == v) (flat a).

(** What is left of [apply] once the mapping has returned the points [y]
    (lines 103-139): the index conversion, the regrouping under a
    transform of [ndim] 4, the interpolation and the assembly. *)
Definition resample_mapped (bspline : kernel) (transform : Transform)
           (spatialimage : SpatialImage) (_ref : SpatialReference) (y : ndarray)
           (order : Z) (mode : string) (cval : Q) (prefilter : bool)
           (output_dtype : option dtype) : M resampled :=
  let data := pad_components transform (dataobj spatialimage) in
  targets <- call EvIndex
               (index (grid_of_image spatialimage)
                      (as_homogeneous y (ref_ndim _ref))) ;;
  targets <- volume_targets transform targets ;;
  res <- map_coordinates bspline data (dataobj_dtype spatialimage) targets
                         output_dtype order mode cval prefilter ;;
  assemble spatialimage _ref data res output_dtype.

(** The loads a call makes for the paths it was given: the reference's
    (lines 76-77), then the image's (lines 88-89). *)
Definition path_loads (reference : option pyref) (spatialimage : pyimage)
  : list event :=
  match reference with
  | Some (RPath p) => [EvLoad p]
  | _ => []
  end
  ++ match spatialimage with
     | IPath p => [EvLoad p]
     | IObj _ => []
     end.

(** The calls of the mapping stage (lines 102-112), by the kind of
    transform. *)
Definition mapping_calls (fs : files) (transform : Transform)
           (reference : option pyref) : list event :=
  match tf_to_field transform with
  | Some _ => [EvToField (loaded_reference fs reference); EvFieldMap; EvIndex]
  | None => [EvMap; EvIndex]
  end.

(** The numeric work of the interpolation routine. *)
Definition numeric_calls (order : Z) (prefilter : bool) : list event :=
  (if prefilter && (1 <? order)%Z then [EvPrefilter] else []) ++ [EvInterpolate].

(** Inputs of the further examples: a reference that is a set of two
    sampled points, and a grid with a header. *)
Module MoreExamples.

Definition two_points : SampledSpatialData :=
  mk_samples (mk [3; 2]%nat [0; 1; 0; 1; 0; 1]%Q) 3.

Definition grid_with_header : ImageGrid :=
  mk_grid [1; 1; 1]%nat Examples.eye4 Examples.eye4
          (Some (mk_header int16 "reference header")).

Definition two_files : files :=
  fun p => if (p =? "ref.nii")%string then Some Examples.vol1
           else if (p =? "moving.nii")%string then Some Examples.ones333
           else None.

End MoreExamples.

Lemma bind_inr {A B} (m : M A) (f : A -> M B) tr b :
  bind m f = (tr, inr b) ->
  exists t1 a t2, m = (t1, inr a) /\ f a = (t2, inr b) /\ tr = t1 ++ t2.
Proof.
  destruct m as [t1 [e | a]]; simpl; [discriminate |].
  destruct (f a) as [t2 r] eqn:E. intros H. inversion H; subst.
  exists t1, a, t2. auto.
Qed.

Lemma bind_ok {A B} (m : M A) (f : A -> M B) t1 a :
  m = (t1, inr a) -> bind m f = (t1 ++ trace (f a), outcome (f a)).
Proof. intros ->. simpl. destruct (f a); reflexivity. Qed.

Lemma bind_err {A B} (m : M A) (f : A -> M B) t1 e :
  m = (t1, inl e) -> bind m f = (t1, inl e).
Proof. intros ->. reflexivity. Qed.

Lemma trace_bind {A B} (m : M A) (f : A -> M B) :
  trace (bind m f) = trace m \/
  exists a, outcome m = inr a /\ trace (bind m f) = trace m ++ trace (f a).
Proof.
  destruct m as [t1 [e | a]]; simpl; [left; reflexivity |].
  right. exists a. split; [reflexivity |]. destruct (f a); reflexivity.
Qed.

Create HintDb traces.

Section Properties.

Variable bspline : kernel.

#[local] Hint Resolve Forall_cons Forall_nil : traces.

Lemma nbload_trace fs p : Forall (fun ev => is_load ev = true) (trace (_nbload fs p)).
Proof. unfold _nbload, call. simpl. repeat constructor. Qed.

Lemma resolve_reference_trace fs tf reference :
  Forall (fun ev => is_load ev = true) (trace (resolve_reference fs tf reference)).
Proof.
  unfold resolve_reference.
  destruct reference as [[p | img | g | s] |]; simpl.
  - unfold _nbload, call. destruct (fs p); simpl; repeat constructor.
  - repeat constructor.
  - repeat constructor.
  - repeat constructor.
  - destruct (tf_reference tf); simpl; constructor.
Qed.

Lemma load_image_trace fs spatialimage :
  Forall (fun ev => is_load ev = true) (trace (load_image fs spatialimage)).
Proof.
  destruct spatialimage as [p | img]; [exact (nbload_trace fs p) | constructor].
Qed.

(** C5: with no [reference] argument and a transform that has no
    reference of its own, [apply] raises the missing-reference error at
    once: nothing is loaded, mapped or interpolated. *)
Theorem apply_without_reference fs tf spatialimage order mode cval prefilter dt :
  tf_reference tf = None ->
  apply bspline fs tf spatialimage None order mode cval prefilter dt
  = ([], inl (TransformError "Cannot apply transform without reference")).
Proof.
  intros H. unfold apply, resolve_reference. simpl. rewrite H. reflexivity.
Qed.

Lemma apply_resolved fs tf spatialimage reference order mode cval prefilter dt
      t1 r _ref t2 img :
  resolve_reference fs tf reference = (t1, inr (r, _ref)) ->
  load_image fs spatialimage = (t2, inr img) ->
  apply bspline fs tf spatialimage reference order mode cval prefilter dt
  = let rest :=
        check_components tf (dataobj img) ;;;
        interpolate bspline tf img r _ref (pad_components tf (dataobj img))
                    order mode cval prefilter dt in
    (t1 ++ t2 ++ trace rest, outcome rest).
Proof.
  intros E1 E2. unfold apply.
  rewrite (bind_ok _ E1). cbn [fst snd].
  rewrite (bind_ok _ E2). reflexivity.
Qed.

Lemma apply_unresolved fs tf spatialimage reference order mode cval prefilter dt t1 e :
  resolve_reference fs tf reference = (t1, inl e) ->
  apply bspline fs tf spatialimage reference order mode cval prefilter dt = (t1, inl e).
Proof. intros E1. unfold apply. rewrite (bind_err _ E1). reflexivity. Qed.

Lemma apply_unloaded fs tf spatialimage reference order mode cval prefilter dt
      t1 rr t2 e :
  resolve_reference fs tf reference = (t1, inr rr) ->
  load_image fs spatialimage = (t2, inl e) ->
  apply bspline fs tf spatialimage reference order mode cval prefilter dt
  = (t1 ++ t2, inl e).
Proof.
  intros E1 E2. unfold apply. rewrite (bind_ok _ E1).
  rewrite (bind_err _ E2). reflexivity.
Qed.

(** C4: once the reference is resolved and the image at hand, a rank-4
    array whose last axis differs from [len(transform)] makes [apply]
    raise the shape-mismatch error, and the calls made by then are loads
    only: no mapping, no interpolation. *)
Theorem component_mismatch_rejected fs tf spatialimage reference order mode cval
        prefilter dt t1 rr t2 img :
  resolve_reference fs tf reference = (t1, inr rr) ->
  load_image fs spatialimage = (t2, inr img) ->
  ndim (dataobj img) = 4%nat ->
  last_dim (dataobj img) <> tf_len tf ->
  apply bspline fs tf spatialimage reference order mode cval prefilter dt
  = (t1 ++ t2,
     inl (ValueError
            "The fourth dimension of the data does not match the tranform's shape."))
  /\ Forall (fun ev => is_load ev = true) (t1 ++ t2).
Proof.
  intros E1 E2 Hrank Hlen. destruct rr as [r _ref]. split.
  - erewrite apply_resolved by eassumption.
    unfold check_components. rewrite Hrank.
    apply Nat.eqb_neq in Hlen. rewrite Hlen. cbn.
    now rewrite app_nil_r.
  - apply Forall_app. split.
    + generalize (resolve_reference_trace fs tf reference). now rewrite E1.
    + generalize (load_image_trace fs spatialimage). now rewrite E2.
Qed.

(** *** Orders and modes the interpolation routine refuses *)

Lemma mode_code_none mode :
  ~ In mode accepted_modes -> _extend_mode_to_code mode = None.
Proof.
  unfold accepted_modes, _extend_mode_to_code. intros H.
  repeat match goal with
         | |- context [String.eqb mode ?s] =>
             destruct (String.eqb_spec mode s) as [-> | _];
             [exfalso; apply H; simpl; tauto |]
         end.
  reflexivity.
Qed.


Lemma map_coordinates_rejects input idt coords dt order mode cval prefilter :
  (order < 0 \/ 5 < order)%Z \/ ~ In mode accepted_modes ->
  exists msg,
    map_coordinates bspline input idt coords dt order mode cval prefilter
    = ([EvMapCoordinates (shape input) (shape coords)], inl (RuntimeError msg))
    /\ ((order < 0 \/ 5 < order)%Z -> msg = "spline order not supported").
Proof.
  intros H. unfold map_coordinates, call. cbn [bind].
  destruct ((order <? 0)%Z || (5 <? order)%Z) eqn:Ho; [cbn; eauto |].
  apply orb_false_iff in Ho. destruct Ho as [H1 H2]. apply Z.ltb_ge in H1, H2.
  destruct H as [H | H]; [lia |].
  destruct ((ndim input <? 1)%nat || _);
    [cbn; eexists; split; [reflexivity | lia] |].
  destruct (negb _); [cbn; eexists; split; [reflexivity | lia] |].
  cbv zeta. rewrite (mode_code_none H). cbn.
  eexists; split; [reflexivity | lia].
Qed.

Lemma map_targets_trace tf img r _ref :
  Forall (fun ev => is_mapping ev = true) (trace (map_targets tf img r _ref)).
Proof.
  unfold map_targets, call.
  destruct (tf_to_field tf) as [f |]; cbn [bind].
  - destruct (f r) as [e | fld]; [repeat constructor |].
    destruct (fld_map fld _) as [e | y]; cbn; repeat constructor.
  - destruct (tf_map tf _) as [e | y]; cbn; repeat constructor.
Qed.

Lemma map_targets_ok_trace tf img r _ref t3 raw :
  map_targets tf img r _ref = (t3, inr raw) ->
  t3 = match tf_to_field tf with
       | Some _ => [EvToField r; EvFieldMap; EvIndex]
       | None => [EvMap; EvIndex]
       end.
Proof.
  unfold map_targets, call.
  destruct (tf_to_field tf) as [f |]; cbn [bind].
  - destruct (f r) as [e | fld]; [discriminate |].
    destruct (fld_map fld _) as [e | y]; cbn; [discriminate |].
    intros H; inversion H; reflexivity.
  - destruct (tf_map tf _) as [e | y]; cbn; [discriminate |].
    intros H; inversion H; reflexivity.
Qed.

Lemma resolve_reference_loaded fs tf reference t1 r _ref :
  resolve_reference fs tf reference = (t1, inr (r, _ref)) ->
  r = loaded_reference fs reference.
Proof.
  unfold resolve_reference, loaded_reference, _nbload, call.
  destruct reference as [[p | img | g | s] |]; cbn.
  - destruct (fs p); cbn; intros H; inversion H; reflexivity.
  - intros H; inversion H; reflexivity.
  - intros H; inversion H; reflexivity.
  - intros H; inversion H; reflexivity.
  - destruct (tf_reference tf); cbn; intros H; inversion H; reflexivity.
Qed.

Lemma volume_targets_trace tf x : trace (volume_targets tf x) = [].
Proof.
  unfold volume_targets, lift.
  destruct (tf_ndim tf =? 4)%nat; [| reflexivity].
  destruct (first_dim x) as [e | d]; [reflexivity |]. cbn [bind].
  destruct (reshape x _); reflexivity.
Qed.

Lemma check_components_trace tf data : trace (check_components tf data) = [].
Proof. unfold check_components. destruct (_ && _); reflexivity. Qed.

Lemma not_numeric_loads t :
  Forall (fun ev => is_load ev = true) t ->
  Forall (fun ev => is_numeric ev = false) t.
Proof. apply Forall_impl. intros ev. destruct ev; simpl; congruence. Qed.

Lemma not_numeric_mapping t :
  Forall (fun ev => is_mapping ev = true) t ->
  Forall (fun ev => is_numeric ev = false) t.
Proof. apply Forall_impl. intros ev. destruct ev; simpl; congruence. Qed.

(** Once the mapping has given the coordinates, what is left of the call
    is the interpolation routine and the assembly. *)
Lemma interpolate_mapped tf img r _ref data order mode cval prefilter dt
      t3 raw targets :
  map_targets tf img r _ref = (t3, inr raw) ->
  volume_targets tf raw = ([], inr targets) ->
  interpolate bspline tf img r _ref data order mode cval prefilter dt
  = let rest :=
        res <- map_coordinates bspline data (dataobj_dtype img) targets dt
                               order mode cval prefilter ;;
        assemble img _ref data res dt in
    (t3 ++ trace rest, outcome rest).
Proof.
  intros E3 Ev. unfold interpolate.
  rewrite (bind_ok _ E3). rewrite (bind_ok _ Ev). reflexivity.
Qed.

Lemma interpolate_rejects tf img r _ref data order mode cval prefilter dt :
  (order < 0 \/ 5 < order)%Z \/ ~ In mode accepted_modes ->
  exists tr e,
    interpolate bspline tf img r _ref data order mode cval prefilter dt = (tr, inl e)
    /\ Forall (fun ev => is_numeric ev = false) tr.
Proof.
  intros H.
  pose proof (map_targets_trace tf img r _ref) as Ht.
  destruct (map_targets tf img r _ref) as [t1 [e | x]] eqn:E1; cbn [trace fst] in Ht.
  - exists t1, e. split; [unfold interpolate; now rewrite E1 |].
    now apply not_numeric_mapping.
  - pose proof (volume_targets_trace tf x) as Hv.
    destruct (volume_targets tf x) as [t2 [e | x']] eqn:E2;
      cbn [trace fst] in Hv; subst t2.
    + exists (t1 ++ []), e.
      split; [unfold interpolate; rewrite E1; cbn [bind]; now rewrite E2 |].
      rewrite app_nil_r. now apply not_numeric_mapping.
    + erewrite interpolate_mapped; [| exact E1 | exact E2]. cbv zeta.
      destruct (map_coordinates_rejects data (dataobj_dtype img) x' dt cval prefilter H)
        as (msg & Hm & _).
      rewrite Hm. cbn [bind trace outcome fst snd].
      eexists _, _. split; [reflexivity |].
      apply Forall_app. split; [now apply not_numeric_mapping | repeat constructor].
Qed.

(** C6, as amended: [apply] does not check [order] or [mode] itself.  With
    an order outside 0..5, or a mode that is none of the eight the
    interpolation routine knows, the call fails, and no prefiltering and
    no interpolation has run by then.  When the reference is resolved, the
    image at hand, the component check passed and the coordinates mapped,
    the failure is the interpolation routine's [RuntimeError]: it comes
    after the calls of the mapping stage, as the last call of all. *)
Theorem unsupported_order_or_mode fs tf spatialimage reference order mode cval
        prefilter dt :
  (order < 0 \/ 5 < order)%Z \/ ~ In mode accepted_modes ->
  (exists tr e,
      apply bspline fs tf spatialimage reference order mode cval prefilter dt
      = (tr, inl e)
      /\ Forall (fun ev => is_numeric ev = false) tr)
  /\ (forall t1 r _ref t2 img t3 raw targets,
        resolve_reference fs tf reference = (t1, inr (r, _ref)) ->
        load_image fs spatialimage = (t2, inr img) ->
        check_components tf (dataobj img) = ret tt ->
        map_targets tf img r _ref = (t3, inr raw) ->
        volume_targets tf raw = ([], inr targets) ->
        exists msg,
          apply bspline fs tf spatialimage reference order mode cval prefilter dt
          = (t1 ++ t2 ++ t3
               ++ [EvMapCoordinates (shape (pad_components tf (dataobj img)))
                                    (shape targets)],
             inl (RuntimeError msg))
          /\ t3 = mapping_calls fs tf reference
          /\ ((order < 0 \/ 5 < order)%Z -> msg = "spline order not supported")).
Proof.
  intros H. split.
  - pose proof (resolve_reference_trace fs tf reference) as Hr.
    pose proof (load_image_trace fs spatialimage) as Hl.
    destruct (resolve_reference fs tf reference) as [t1 [e | [r _ref]]] eqn:E1;
      cbn [trace fst] in Hr.
    { exists t1, e. split; [now apply apply_unresolved |].
      now apply not_numeric_loads. }
    destruct (load_image fs spatialimage) as [t2 [e | img]] eqn:E2;
      cbn [trace fst] in Hl.
    { exists (t1 ++ t2), e. split; [eapply apply_unloaded; eassumption |].
      apply not_numeric_loads. apply Forall_app. auto. }
    erewrite apply_resolved by eassumption. cbn zeta.
    unfold check_components.
    destruct (_ && _).
    + cbn. eexists _, _. split; [reflexivity |].
      rewrite app_nil_r. apply not_numeric_loads. apply Forall_app. auto.
    + cbn [bind ret].
      destruct (interpolate_rejects tf img r _ref
                  (pad_components tf (dataobj img)) cval prefilter dt H)
        as (tr & e & Hi & Hrej).
      rewrite Hi. cbn. exists (t1 ++ t2 ++ tr), e. split; [reflexivity |].
      apply Forall_app. split; [now apply not_numeric_loads |].
      apply Forall_app. split; [now apply not_numeric_loads | exact Hrej].
  - intros t1 r _ref t2 img t3 raw targets E1 E2 Ec E3 Ev.
    destruct (map_coordinates_rejects (pad_components tf (dataobj img))
                (dataobj_dtype img) targets dt cval prefilter H) as (msg & Hm & Hmsg).
    exists msg. split; [| split; [| exact Hmsg]].
    + erewrite apply_resolved by eassumption. cbv zeta.
      rewrite Ec. cbn [bind ret app].
      erewrite interpolate_mapped; [| exact E3 | exact Ev]. cbv zeta.
      rewrite Hm. reflexivity.
    + apply map_targets_ok_trace in E3.
      apply resolve_reference_loaded in E1. subst r t3. reflexivity.
Qed.

(** *** What a successful call went through *)

Lemma Forall_trace_bind {A B} (P : event -> Prop) (m : M A) (f : A -> M B) :
  Forall P (trace m) ->
  (forall a, outcome m = inr a -> Forall P (trace (f a))) ->
  Forall P (trace (bind m f)).
Proof.
  intros Hm Hf. destruct (trace_bind m f) as [-> | (a & Ha & ->)]; [exact Hm |].
  apply Forall_app. auto.
Qed.

Lemma map_coordinates_trace input idt coords dt order mode cval prefilter :
  Forall (fun ev => is_mapping ev = false /\ is_load ev = false)
         (trace (map_coordinates bspline input idt coords dt order mode cval prefilter)).
Proof.
  unfold map_coordinates, call. cbn [bind].
  destruct (_ || _); [cbn; repeat constructor |].
  destruct (_ || _); [cbn; repeat constructor |].
  destruct (negb _); [cbn; repeat constructor |].
  destruct (_extend_mode_to_code mode); [| cbn; repeat constructor].
  destruct (prefilter && _); cbn; repeat constructor.
Qed.

Lemma assemble_trace img _ref data res dt : trace (assemble img _ref data res dt) = [].
Proof.
  unfold assemble, lift. destruct _ref as [g | s]; [| reflexivity].
  cbn [bind]. destruct (reshape res _); reflexivity.
Qed.

Lemma interpolate_inv tf img r _ref data order mode cval prefilter dt tr x :
  interpolate bspline tf img r _ref data order mode cval prefilter dt = (tr, inr x) ->
  exists t3 targets targets' t4 res,
    map_targets tf img r _ref = (t3, inr targets)
    /\ volume_targets tf targets = ([], inr targets')
    /\ map_coordinates bspline data (dataobj_dtype img) targets' dt
                       order mode cval prefilter = (t4, inr res)
    /\ assemble img _ref data res dt = ([], inr x)
    /\ tr = t3 ++ t4.
Proof.
  unfold interpolate. intros H.
  apply bind_inr in H. destruct H as (t3 & targets & ta & E3 & H & ->).
  apply bind_inr in H. destruct H as (tv & targets' & tb & Ev & H & ->).
  apply bind_inr in H. destruct H as (t4 & res & tc & E4 & Ea & ->).
  pose proof (volume_targets_trace tf targets) as Hv. rewrite Ev in Hv.
  pose proof (assemble_trace img _ref data res dt) as Ha. rewrite Ea in Ha.
  cbn [trace fst] in Hv, Ha. subst tv tc.
  exists t3, targets, targets', t4, res.
  repeat split; auto. now rewrite app_nil_r.
Qed.

Lemma apply_inv fs tf spatialimage reference order mode cval prefilter dt tr x :
  apply bspline fs tf spatialimage reference order mode cval prefilter dt
  = (tr, inr x) ->
  exists t1 r _ref t2 img ti,
    resolve_reference fs tf reference = (t1, inr (r, _ref))
    /\ load_image fs spatialimage = (t2, inr img)
    /\ check_components tf (dataobj img) = ([], inr tt)
    /\ interpolate bspline tf img r _ref (pad_components tf (dataobj img))
                   order mode cval prefilter dt = (ti, inr x)
    /\ tr = t1 ++ t2 ++ ti.
Proof.
  intros H.
  destruct (resolve_reference fs tf reference) as [t1 [e | [r _ref]]] eqn:E1.
  { erewrite apply_unresolved in H by eassumption. discriminate. }
  destruct (load_image fs spatialimage) as [t2 [e | img]] eqn:E2.
  { erewrite apply_unloaded in H by eassumption. discriminate. }
  erewrite apply_resolved in H by eassumption. cbn zeta in H.
  pose proof (check_components_trace tf (dataobj img)) as Hc.
  destruct (check_components tf (dataobj img)) as [tc [e | []]] eqn:Ec;
    cbn [trace fst] in Hc; subst tc.
  { cbn in H. inversion H. }
  cbn [bind] in H.
  destruct (interpolate bspline tf img r _ref _ order mode cval prefilter dt)
    as [ti [e | y]] eqn:Ei; cbn in H; inversion H; subst.
  exists t1, r, _ref, t2, img, ti. repeat split; auto.
Qed.

(** *** Transforms that generate a dense field *)

Lemma map_targets_field_trace tf f img r _ref :
  tf_to_field tf = Some f ->
  Forall (fun ev => ev <> EvMap /\ forall r', ev = EvToField r' -> r' = r)
         (trace (map_targets tf img r _ref)).
Proof.
  intros Hf. unfold map_targets, call. rewrite Hf. cbn [bind].
  assert (Hto : (EvToField r <> EvMap)
                /\ (forall r', EvToField r = EvToField r' -> r' = r)).
  { split; [discriminate | intros r' H; now inversion H]. }
  assert (Hfm : (EvFieldMap <> EvMap)
                /\ (forall r', EvFieldMap = EvToField r' -> r' = r)).
  { split; discriminate. }
  assert (Hix : (EvIndex <> EvMap)
                /\ (forall r', EvIndex = EvToField r' -> r' = r)).
  { split; discriminate. }
  destruct (f r) as [e | fld]; cbn; [auto with traces |].
  destruct (fld_map fld _) as [e | y]; cbn; auto 6 with traces.
Qed.

Lemma with_map_same fs tf f m spatialimage reference order mode cval prefilter dt :
  tf_to_field tf = Some f ->
  apply bspline fs (with_map tf m) spatialimage reference order mode cval prefilter dt
  = apply bspline fs tf spatialimage reference order mode cval prefilter dt.
Proof.
  intros Hf.
  unfold apply, interpolate, resolve_reference, check_components,
    pad_components, map_targets, volume_targets, with_map.
  cbn [tf_reference tf_ndim tf_len tf_map tf_to_field]. rewrite Hf. reflexivity.
Qed.

(** With a callable [to_field], no call of [apply] reaches the transform's
    [map], and [to_field] gets the reference argument, loaded when it was
    a path. *)
Lemma field_calls fs tf f spatialimage reference order mode cval prefilter dt :
  tf_to_field tf = Some f ->
  Forall (fun ev => ev <> EvMap /\
                    forall r', ev = EvToField r' -> r' = loaded_reference fs reference)
         (trace (apply bspline fs tf spatialimage reference order mode cval
                       prefilter dt)).
Proof.
  intros Hf.
  assert (Hload : forall t, Forall (fun ev => is_load ev = true) t ->
            Forall (fun ev => ev <> EvMap /\
                 forall r', ev = EvToField r' -> r' = loaded_reference fs reference) t).
  { intros t. apply Forall_impl. intros ev Hev.
    split; [intros -> | intros r' ->]; discriminate. }
  unfold apply. apply Forall_trace_bind.
  { apply Hload, resolve_reference_trace. }
  intros [r _ref] Hr. cbn [fst snd].
  assert (r = loaded_reference fs reference) as ->.
  { destruct (resolve_reference fs tf reference) as [t1 o] eqn:E1.
    cbn in Hr. subst o. eapply resolve_reference_loaded; eassumption. }
  apply Forall_trace_bind.
  { apply Hload, load_image_trace. }
  intros img _. apply Forall_trace_bind.
  { rewrite check_components_trace. constructor. }
  intros _ _. apply Forall_trace_bind.
  { eapply map_targets_field_trace; eassumption. }
  intros targets _. apply Forall_trace_bind.
  { rewrite volume_targets_trace. constructor. }
  intros targets' _. apply Forall_trace_bind.
  { eapply Forall_impl; [| apply map_coordinates_trace].
    intros ev [Hev _]. split; [intros -> | intros r' ->]; discriminate. }
  intros res' _. rewrite assemble_trace. constructor.
Qed.

(** C9, as amended: when the transform has a callable [to_field], in a
    call whose reference is resolved and whose image passed the component
    check, [to_field] receives the caller's [reference] argument, a path
    having been replaced by the image loaded from it (so it is [None] when
    the caller gave none, whatever reference the transform carries).  The
    field's [map] is then called on the coordinates of the effective
    reference, the one the reference was resolved to, and what it returns
    is what the rest of the call works on; a failure of [to_field] or of
    the field's [map] ends the call.  The transform's own [map] is never
    called: no call of it is recorded, and the call is the same whatever
    that [map] is. *)
Theorem field_transform_mapping fs tf f spatialimage reference order mode cval
        prefilter dt t1 r _ref t2 img :
  tf_to_field tf = Some f ->
  resolve_reference fs tf reference = (t1, inr (r, _ref)) ->
  load_image fs spatialimage = (t2, inr img) ->
  check_components tf (dataobj img) = ret tt ->
  r = loaded_reference fs reference
  /\ match f r with
     | inl e =>
         apply bspline fs tf spatialimage reference order mode cval prefilter dt
         = (t1 ++ t2 ++ [EvToField r], inl e)
     | inr fld =>
         match fld_map fld (T (ndcoords _ref)) with
         | inl e =>
             apply bspline fs tf spatialimage reference order mode cval prefilter dt
             = (t1 ++ t2 ++ [EvToField r; EvFieldMap], inl e)
         | inr y =>
             let rest := resample_mapped bspline tf img _ref y
                                         order mode cval prefilter dt in
             apply bspline fs tf spatialimage reference order mode cval prefilter dt
             = (t1 ++ t2 ++ [EvToField r; EvFieldMap] ++ trace rest, outcome rest)
         end
     end
  /\ ~ In EvMap (trace (apply bspline fs tf spatialimage reference order mode cval
                              prefilter dt))
  /\ (forall m,
        apply bspline fs (with_map tf m) spatialimage reference order mode cval
              prefilter dt
        = apply bspline fs tf spatialimage reference order mode cval prefilter dt).
Proof.
  intros Hf E1 E2 Ec.
  split; [eapply resolve_reference_loaded; eassumption |].
  split; [| split].
  - erewrite apply_resolved by eassumption. cbv zeta.
    rewrite Ec. cbn [bind ret app].
    unfold interpolate, resample_mapped, map_targets, call. rewrite Hf.
    cbn [bind].
    destruct (f r) as [e | fld]; [reflexivity |].
    destruct (fld_map fld (T (ndcoords _ref))) as [e | y]; [reflexivity |].
    cbn [bind app]. cbv zeta.
    destruct (index (grid_of_image img) (as_homogeneous y (ref_ndim _ref)))
      as [e | targets]; [reflexivity |].
    cbn [bind app].
    destruct (volume_targets tf targets) as [tv [e | targets']]; [reflexivity |].
    cbn [bind app].
    destruct (map_coordinates bspline _ _ targets' dt order mode cval prefilter)
      as [t4 [e | res]]; [reflexivity |].
    cbn [bind app].
    destruct (assemble img _ref _ res dt) as [ta o]. reflexivity.
  - intros Hin.
    pose proof (@field_calls fs tf f spatialimage reference order mode cval
                  prefilter dt Hf) as Hall.
    rewrite Forall_forall in Hall. now destruct (Hall _ Hin).
  - intros m. eapply with_map_same; eassumption.
Qed.

(** *** Rank checks and padding *)

Lemma check_components_rank tf data :
  ndim data <> 4%nat -> check_components tf data = ret tt.
Proof.
  intros H. unfold check_components.
  apply Nat.eqb_neq in H. now rewrite H.
Qed.

(** *** Shapes *)

Lemma known_dims_of s : known (dims_of s) = Z.of_nat (prod s).
Proof.
  unfold known, dims_of, prod. induction s as [| d s IH]; [reflexivity |].
  cbn [map fold_right]. rewrite IH.
  destruct (Z.ltb_spec (Z.of_nat d) 0); lia.
Qed.

Lemma unknowns_dims_of s : unknowns (dims_of s) = 0%nat.
Proof.
  unfold unknowns, dims_of. induction s as [| d s IH]; [reflexivity |].
  cbn [map filter]. destruct (Z.ltb_spec (Z.of_nat d) 0); [lia | exact IH].
Qed.

Lemma to_nat_dims_of s : map Z.to_nat (dims_of s) = s.
Proof.
  unfold dims_of. rewrite map_map. rewrite <- (map_id s) at 2.
  apply map_ext. intros d. apply Nat2Z.id.
Qed.

Lemma known_app d1 d2 : known (d1 ++ d2) = (known d1 * known d2)%Z.
Proof.
  unfold known. induction d1 as [| d d1 IH]; cbn [app fold_right].
  - destruct (fold_right _ 1%Z d2); reflexivity.
  - rewrite IH. destruct (d <? 0)%Z; lia.
Qed.

Lemma unknowns_app d1 d2 : unknowns (d1 ++ d2) = (unknowns d1 + unknowns d2)%nat.
Proof. unfold unknowns. now rewrite filter_app, length_app. Qed.

Lemma reshape_dims_of a s arr :
  reshape a (dims_of s) = inr arr ->
  shape arr = s /\ flat arr = flat a /\ prod s = size a.
Proof.
  unfold reshape. rewrite unknowns_dims_of, known_dims_of.
  destruct (Z.eqb_spec (Z.of_nat (prod s)) (Z.of_nat (size a))); [| discriminate].
  intros H. inversion H. cbn. rewrite to_nat_dims_of. repeat split. lia.
Qed.

Lemma reshape_infer_last a s arr :
  reshape a (dims_of s ++ [(-1)%Z]) = inr arr ->
  exists k, shape arr = s ++ [k] /\ flat arr = flat a
            /\ (k * prod s)%nat = size a /\ prod s <> 0%nat.
Proof.
  unfold reshape. rewrite unknowns_app, known_app, unknowns_dims_of, known_dims_of.
  cbn [unknowns filter Z.ltb Z.compare List.length Nat.add known fold_right].
  rewrite Z.mul_1_r.
  destruct (Z.eqb_spec (Z.of_nat (prod s)) 0); [discriminate |].
  destruct (Z.eqb_spec (Z.of_nat (size a) mod Z.of_nat (prod s)) 0);
    [| discriminate].
  cbn [orb negb]. intros H. inversion H. cbn [shape flat].
  exists (Z.to_nat (Z.of_nat (size a) / Z.of_nat (prod s))).
  repeat split.
  - rewrite map_app. cbn. f_equal.
    rewrite <- (to_nat_dims_of s) at 2. unfold dims_of. rewrite !map_map.
    apply map_ext. intros d. destruct (Z.ltb_spec (Z.of_nat d) 0); [lia | reflexivity].
  - apply Nat2Z.inj. rewrite Nat2Z.inj_mul, Z2Nat.id.
    + pose proof (Z.div_mod (Z.of_nat (size a)) (Z.of_nat (prod s))). lia.
    + apply Z.div_pos; lia.
  - lia.
Qed.

Lemma reshape_infer_first a d arr :
  reshape a [(-2)%Z; Z.of_nat d] = inr arr ->
  exists m, shape arr = [m; d] /\ flat arr = flat a
            /\ (m * d)%nat = size a /\ d <> 0%nat.
Proof.
  unfold reshape.
  cbn [unknowns filter Z.ltb Z.compare List.length known fold_right].
  destruct (Z.ltb_spec (Z.of_nat d) 0); [lia |].
  cbn [List.length]. rewrite Z.mul_1_r.
  destruct (Z.eqb_spec (Z.of_nat d) 0); [discriminate |].
  destruct (Z.eqb_spec (Z.of_nat (size a) mod Z.of_nat d) 0); [| discriminate].
  cbn [orb negb]. intros Hr. inversion Hr. cbn [shape flat map Z.ltb Z.compare].
  destruct (Z.ltb_spec (Z.of_nat d) 0); [lia |].
  exists (Z.to_nat (Z.of_nat (size a) / Z.of_nat d)).
  rewrite Nat2Z.id. repeat split.
  - apply Nat2Z.inj. rewrite Nat2Z.inj_mul, Z2Nat.id.
    + pose proof (Z.div_mod (Z.of_nat (size a)) (Z.of_nat d)). lia.
    + apply Z.div_pos; lia.
  - lia.
Qed.

Lemma chunks_length k n l : List.length (chunks k n l) = n.
Proof. revert l. induction n as [| n IH]; intros l; cbn; [| rewrite IH]; reflexivity. Qed.

Lemma concat_uniform_length {A} (w : nat) (ls : list (list A)) :
  Forall (fun l => List.length l = w) ls ->
  List.length (List.concat ls) = (List.length ls * w)%nat.
Proof.
  induction 1 as [| l ls Hl _ IH]; cbn; [reflexivity |].
  rewrite length_app, IH, Hl. reflexivity.
Qed.

Lemma columns_wf D pts : wf (columns D pts).
Proof.
  unfold wf, columns, size. cbn [shape flat prod fold_right].
  rewrite (@concat_uniform_length _ (List.length pts)).
  - rewrite length_map, length_seq. lia.
  - apply Forall_forall. intros l Hl. apply in_map_iff in Hl.
    destruct Hl as (d & <- & _). apply length_map.
Qed.

Lemma index_shape g x t :
  index g x = inr t ->
  exists m k, shape x = [m; k] /\ shape t = [g_ndim g; m] /\ wf t.
Proof.
  unfold index. destruct (shape x) as [| m [| k [| ? ?]]]; try discriminate.
  destruct (k =? S (g_ndim g))%nat; [| discriminate].
  intros H. inversion H. exists m, k. split; [reflexivity |]. split.
  - cbn. now rewrite length_map, chunks_length.
  - apply columns_wf.
Qed.

Lemma removelast_two {A} (s : list A) (a : A) :
  removelast s = [a] -> exists b, s = [a; b].
Proof.
  destruct s as [| x [| y [| z s]]]; cbn; try discriminate.
  intros H. inversion H. eauto.
Qed.

Lemma as_homogeneous_rows y dim m k :
  shape (as_homogeneous y dim) = [m; k] -> rows y = m.
Proof.
  unfold as_homogeneous, rows.
  destruct (last_dim (atleast_2d y) =? dim + 1)%nat.
  - now intros ->.
  - cbn [shape]. intros H.
    assert (Hr : removelast (shape (atleast_2d y)) = [m]).
    { destruct (removelast (shape (atleast_2d y))) as [| a [| b l]];
        cbn in H; inversion H; try reflexivity.
      destruct l; discriminate. }
    apply removelast_two in Hr. destruct Hr as [b ->]. reflexivity.
Qed.

Lemma map_targets_dense tf img r _ref t targets :
  map_targets tf img r _ref = (t, inr targets) ->
  exists y, dense_map tf r (T (ndcoords _ref)) = inr y
            /\ index (grid_of_image img) (as_homogeneous y (ref_ndim _ref))
               = inr targets.
Proof.
  unfold map_targets, dense_map, call.
  destruct (tf_to_field tf) as [f |]; cbn [bind].
  - destruct (f r) as [e | fld]; [discriminate |].
    destruct (fld_map fld _) as [e | y]; cbn; [discriminate |].
    intros H. inversion H. eauto.
  - destruct (tf_map tf _) as [e | y]; cbn; [discriminate |].
    intros H. inversion H. eauto.
Qed.

Lemma grid_of_image_ndim img : (g_ndim (grid_of_image img) <= 3)%nat.
Proof. unfold g_ndim, grid_of_image. cbn [g_shape]. rewrite length_firstn. lia. Qed.

Lemma volume_targets_shape tf targets t t' D M0 :
  tf_ndim tf = 4%nat ->
  shape targets = [D; M0] ->
  D <> 4%nat ->
  volume_targets tf targets = (t, inr t') ->
  shape t' = [S D; M0] /\ D <> 0%nat.
Proof.
  intros Hn Hs HD. unfold volume_targets, lift, first_dim. rewrite Hn, Hs.
  cbn [Nat.eqb bind app].
  destruct (reshape targets _) as [e | rsh] eqn:Er; [discriminate |].
  cbn. intros H. inversion H. subst t t'.
  apply reshape_infer_first in Er. destruct Er as (m & Hrs & _ & Hm & HD0).
  unfold size in Hm. rewrite Hs in Hm. cbn in Hm.
  assert (m = M0) as -> by nia.
  split; [| exact HD0].
  assert (H2 : atleast_2d rsh = rsh) by (unfold atleast_2d; now rewrite Hrs).
  unfold as_homogeneous. rewrite H2. cbv zeta. unfold last_dim. rewrite Hrs.
  cbn [last]. unfold default_dim. apply Nat.eqb_neq in HD.
  cbn [Nat.add]. rewrite HD. reflexivity.
Qed.

Lemma volume_targets_other tf targets :
  tf_ndim tf <> 4%nat -> volume_targets tf targets = ret targets.
Proof. intros H. unfold volume_targets. apply Nat.eqb_neq in H. now rewrite H. Qed.

Lemma map_coordinates_ok input idt coords dt order mode cval prefilter t res :
  map_coordinates bspline input idt coords dt order mode cval prefilter = (t, inr res) ->
  exists m,
    _extend_mode_to_code mode = Some m
    /\ hd 0%nat (shape coords) = ndim input
    /\ shape res = tl (shape coords)
    /\ flat res
       = map (fun j =>
                interp_out (_get_output dt idt)
                  (if (order =? 0)%Z
                   then nearest_sample m input cval (point coords j)
                   else bspline order (prefilter && (1 <? order)%Z) m cval input
                                (point coords j)))
             (seq 0 (prod (tl (shape coords)))).
Proof.
  unfold map_coordinates, call. cbn [bind].
  destruct (_ || _); [cbn; discriminate |].
  destruct (_ || _); [cbn; discriminate |].
  destruct (Nat.eqb_spec (hd 0%nat (shape coords)) (ndim input));
    [| cbn; discriminate].
  cbn [negb]. cbv zeta.
  destruct (_extend_mode_to_code mode) as [m |]; [| cbn; discriminate].
  destruct (prefilter && _); cbn [bind call ret app]; intros H; inversion H;
    exists m; auto.
Qed.

Lemma assemble_grid img g data res dt t x :
  assemble img (RefGrid g) data res dt = (t, inr x) ->
  exists arr hdr,
    x = Moved arr (g_affine g) hdr
    /\ reshape res (if (ndim data <? 4)%nat then dims_of (g_shape g)
                    else dims_of (g_shape g) ++ [(-1)%Z]) = inr arr.
Proof.
  unfold assemble, lift. cbn [bind].
  destruct (reshape res _) as [e | arr]; [discriminate |].
  cbn. intros H. inversion H. eauto.
Qed.

Lemma padded_rank tf data :
  (4 <= ndim (pad_components tf data))%nat
  <-> has_trailing_axis (ndim data) (tf_ndim tf).
Proof.
  unfold pad_components, has_trailing_axis, newaxis_last, ndim.
  destruct (Nat.ltb_spec (List.length (shape data)) (tf_ndim tf)); cbn [shape].
  - rewrite length_app. cbn. lia.
  - lia.
Qed.

(** C2, as amended: a call that succeeds on an image-grid reference
    returns an array with the grid's shape, followed by one more axis
    exactly when the data array has rank 4 or more once padded, that is
    when the source has rank 4 or more, or rank 3 under a transform of
    [ndim] above 3 (and not "when the rank exceeds the transform's
    [ndim]").  The length of that axis times the number of grid points
    is the number of points the mapping returned: it is [len(transform)]
    when the mapping returns that many points per grid point. *)
Theorem resampled_shape fs tf spatialimage reference order mode cval prefilter dt
        tr x t1 r g t2 img :
  apply bspline fs tf spatialimage reference order mode cval prefilter dt
  = (tr, inr x) ->
  resolve_reference fs tf reference = (t1, inr (r, RefGrid g)) ->
  load_image fs spatialimage = (t2, inr img) ->
  exists arr hdr,
    x = Moved arr (g_affine g) hdr
    /\ (has_trailing_axis (ndim (dataobj img)) (tf_ndim tf) ->
        exists k y,
          shape arr = g_shape g ++ [k]
          /\ dense_map tf r (T (grid_ndcoords g)) = inr y
          /\ (k * prod (g_shape g))%nat = rows y
          /\ (rows y = (tf_len tf * prod (g_shape g))%nat -> k = tf_len tf))
    /\ (~ has_trailing_axis (ndim (dataobj img)) (tf_ndim tf) ->
        shape arr = g_shape g).
Proof.
  intros Happ E1 E2.
  apply apply_inv in Happ.
  destruct Happ as (t1' & r' & _ref & t2' & img' & ti & E1' & E2' & Ec & Ei & ->).
  rewrite E1 in E1'. inversion E1'; subst t1' r' _ref.
  rewrite E2 in E2'. inversion E2'; subst t2' img'.
  apply interpolate_inv in Ei.
  destruct Ei as (t3 & targets & targets' & t4 & res & E3 & Ev & E4 & Ea & ->).
  apply assemble_grid in Ea. destruct Ea as (arr & hdr & -> & Hre).
  exists arr, hdr. split; [reflexivity |].
  rewrite <- !padded_rank.
  set (data := pad_components tf (dataobj img)) in *.
  split.
  - intros Hrank.
    assert (Hlt : (ndim data <? 4)%nat = false) by (apply Nat.ltb_ge; exact Hrank).
    rewrite Hlt in Hre.
    apply reshape_infer_last in Hre. destruct Hre as (k & Hs & _ & Hk & HN).
    apply map_targets_dense in E3. destruct E3 as (y & Hy & Hix).
    cbn [ndcoords ref_ndim] in Hy, Hix.
    apply index_shape in Hix. destruct Hix as (m & c & Hah & Hts & _).
    apply as_homogeneous_rows in Hah.
    apply map_coordinates_ok in E4.
    destruct E4 as (md & _ & Hhd & Hrs & _).
    pose proof (grid_of_image_ndim img) as HD.
    assert (Hshape : shape targets' = [S (g_ndim (grid_of_image img)); m]).
    { destruct (Nat.eq_dec (tf_ndim tf) 4) as [H4 | H4].
      - eapply volume_targets_shape in Ev; [| exact H4 | exact Hts | lia].
        now destruct Ev.
      - rewrite volume_targets_other in Ev by exact H4.
        inversion Ev; subst targets'.
        rewrite Hts in Hhd. cbn [hd] in Hhd. lia. }
    exists k, y. repeat split; auto.
    + rewrite Hk. unfold size. rewrite Hrs, Hshape. cbn. lia.
    + intros Hrows. unfold size in Hk. rewrite Hrs, Hshape in Hk. cbn in Hk. nia.
  - intros Hrank.
    assert (Hlt : (ndim data <? 4)%nat = true) by (apply Nat.ltb_lt; lia).
    rewrite Hlt in Hre. apply reshape_dims_of in Hre. now destruct Hre.
Qed.

(** *** Order 0 *)



Lemma locate_none m len c :
  locate m len c = None ->
  (m = Constant /\ out_of_bounds len c = true)
  \/ (m = GridConstant /\ off_grid len c = true).
Proof.
  unfold locate. destruct m; try discriminate.
  - destruct (out_of_bounds len c); [auto | discriminate].
  - destruct (off_grid len c); [auto | discriminate].
Qed.



Lemma locate_all_none m s pt :
  locate_all m s pt = None ->
  (m = Constant /\ beyond_edges s pt = true)
  \/ (m = GridConstant /\ off_the_grid s pt = true).
Proof.
  unfold beyond_edges, off_the_grid. revert pt.
  induction s as [| d s IH]; intros [| c pt]; cbn [locate_all combine existsb];
    try discriminate.
  destruct (locate m d c) as [i |] eqn:El.
  - destruct (locate_all m s pt) as [idx' |] eqn:Ea; [discriminate |].
    intros _. cbn [fst snd].
    destruct (IH _ Ea) as [[-> Hb] | [-> Hb]]; [left | right];
      (split; [reflexivity |]); rewrite Hb; apply orb_true_r.
  - intros _. cbn [fst snd]. apply locate_none in El.
    destruct El as [[-> Ho] | [-> Ho]]; [left | right];
      (split; [reflexivity |]); now rewrite Ho.
Qed.


Lemma mode_code_constant mode :
  _extend_mode_to_code mode = Some Constant -> mode = "constant".
Proof.
  unfold _extend_mode_to_code.
  repeat match goal with
         | |- context [String.eqb mode ?s] =>
             destruct (String.eqb_spec mode s); [try discriminate |]
         end; try discriminate.
  intros _. assumption.
Qed.

Lemma mode_code_grid_constant mode :
  _extend_mode_to_code mode = Some GridConstant -> mode = "grid-constant".
Proof.
  unfold _extend_mode_to_code.
  repeat match goal with
         | |- context [String.eqb mode ?s] =>
             destruct (String.eqb_spec mode s); [try discriminate |]
         end; try discriminate.
  intros _. assumption.
Qed.

Lemma reshape_flat a dims arr : reshape a dims = inr arr -> flat arr = flat a.
Proof.
  unfold reshape. destruct (unknowns dims) as [| [| n]]; [| | discriminate].
  - destruct (_ =? _)%Z; [| discriminate]. intros H. now inversion H.
  - destruct (_ || _); [discriminate |]. intros H. now inversion H.
Qed.

Lemma assemble_flat img _ref data res dt t x :
  assemble img _ref data res dt = (t, inr x) -> flat (result_array x) = flat res.
Proof.
  destruct _ref as [g | s].
  - intros H. apply assemble_grid in H. destruct H as (arr & hdr & -> & Hre).
    cbn. eapply reshape_flat; eassumption.
  - cbn. intros H. now inversion H.
Qed.



(** *** The boundary scenario *)

(** C8: a 3x3x3 array of ones, one output sample whose source index
    coordinates are (-1, 0, 0), order 0: the call succeeds and the value
    is 5 in mode constant with [cval] 5, and 1 in mode nearest. *)
Theorem constant_boundary_scenario fs tf img g prefilter dt t3 :
  dataobj img = mk [3; 3; 3]%nat (repeat 1%Q 27) ->
  tf_ndim tf = 3%nat ->
  g_shape g = [1; 1; 1]%nat ->
  map_targets tf img (Some (RGrid g)) (RefGrid g)
  = (t3, inr (mk [3; 1]%nat [-1; 0; 0]%Q)) ->
  (exists tr x,
      apply bspline fs tf (IObj img) (Some (RGrid g)) 0 "constant" 5 prefilter dt
      = (tr, inr x)
      /\ result_array x = mk [1; 1; 1]%nat [5]%Q)
  /\ (exists tr x,
        apply bspline fs tf (IObj img) (Some (RGrid g)) 0 "nearest" 5 prefilter dt
        = (tr, inr x)
        /\ result_array x = mk [1; 1; 1]%nat [1]%Q).
Proof.
  intros Hdata Hndim Hshape Htargets.
  assert (E1 : resolve_reference fs tf (Some (RGrid g))
               = ([], inr (Some (RGrid g), RefGrid g))) by reflexivity.
  assert (E2 : load_image fs (IObj img) = ([], inr img)) by reflexivity.
  assert (Hv : volume_targets tf (mk [3; 1]%nat [-1; 0; 0]%Q)
               = ret (mk [3; 1]%nat [-1; 0; 0]%Q)).
  { apply volume_targets_other. rewrite Hndim. discriminate. }
  split.
  - erewrite apply_resolved by eassumption. cbv zeta.
    unfold check_components, pad_components, interpolate.
    rewrite Hdata, Hndim, Htargets. cbn [ndim shape List.length Nat.eqb Nat.ltb
      Nat.leb andb bind ret].
    rewrite Hv. cbn [bind ret app].
    unfold assemble. rewrite Hshape.
    destruct prefilter, (g_header g);
      (destruct dt as [d |]; [destruct d | destruct (dataobj_dtype img)]);
      vm_compute; eauto.
  - erewrite apply_resolved by eassumption. cbv zeta.
    unfold check_components, pad_components, interpolate.
    rewrite Hdata, Hndim, Htargets. cbn [ndim shape List.length Nat.eqb Nat.ltb
      Nat.leb andb bind ret].
    rewrite Hv. cbn [bind ret app].
    unfold assemble. rewrite Hshape.
    destruct prefilter, (g_header g);
      (destruct dt as [d |]; [destruct d | destruct (dataobj_dtype img)]);
      vm_compute; eauto.
Qed.

(** *** The coordinate along the component axis *)

Lemma chunks_lengths k n l :
  (k * n <= List.length l)%nat ->
  Forall (fun c => List.length c = k) (chunks k n l).
Proof.
  revert l. induction n as [| n IH]; intros l Hl; cbn [chunks]; constructor.
  - rewrite length_firstn. lia.
  - apply IH. rewrite length_skipn. lia.
Qed.

Lemma nth_concat_uniform {A} (w : nat) (ls : list (list A)) (d : A) j i :
  Forall (fun l => List.length l = w) ls ->
  (i < w)%nat ->
  nth (j * w + i) (List.concat ls) d = nth i (nth j ls []) d.
Proof.
  intros Hls Hi. revert j. induction Hls as [| l ls Hl _ IH]; intros j.
  - cbn [List.concat]. destruct j; destruct (_ + _)%nat; destruct i; reflexivity.
  - destruct j as [| j]; cbn [List.concat nth].
    + cbn [Nat.mul Nat.add]. apply app_nth1. lia.
    + rewrite app_nth2 by lia.
      replace (S j * w + i - List.length l)%nat with (j * w + i)%nat by lia.
      apply IH.
Qed.

(** Line 115: after the reshape, [_as_homogeneous] fills the last slot of
    every sample with 1, and the transposition makes that slot the last
    row of the coordinate array. *)
Lemma volume_targets_last_row tf raw t targets D M0 :
  tf_ndim tf = 4%nat ->
  shape raw = [D; M0] ->
  wf raw ->
  D <> 4%nat ->
  volume_targets tf raw = (t, inr targets) ->
  forall j, (j < M0)%nat -> nth D (point targets j) 0%Q = 1%Q.
Proof.
  intros Hn Hs Hwf HD Hv j Hj.
  destruct (@volume_targets_shape tf raw t targets D M0 Hn Hs HD Hv) as [Hts HD0].
  revert Hv. unfold volume_targets, lift, first_dim. rewrite Hn, Hs.
  cbn [Nat.eqb bind app].
  destruct (reshape raw _) as [e | rsh] eqn:Er; [discriminate |].
  cbn [bind ret app]. intros Hv. injection Hv as Ht Htg. subst t.
  apply reshape_infer_first in Er. destruct Er as (m & Hrs & Hrf & Hm & _).
  unfold size in Hm. rewrite Hs in Hm. cbn in Hm.
  assert (m = M0) as -> by nia.
  assert (H2 : atleast_2d rsh = rsh) by (unfold atleast_2d; now rewrite Hrs).
  assert (Hah : as_homogeneous rsh default_dim
                = mk [M0; S D]
                     (List.concat (map (fun p => p ++ [1%Q])
                                       (chunks D M0 (flat raw))))).
  { unfold as_homogeneous. rewrite H2. cbv zeta. unfold last_dim. rewrite Hrs.
    cbn [last]. unfold default_dim. apply Nat.eqb_neq in HD.
    cbn [Nat.add]. rewrite HD. rewrite Hrf. cbn [removelast app prod fold_right].
    now rewrite Nat.mul_1_r. }
  rewrite Hah in Htg. clear Hah.
  unfold point. rewrite Hts. cbn [tl hd prod fold_right]. rewrite Nat.mul_1_r.
  rewrite (nth_indep _ 0%Q (nth (0 * M0 + j) (flat targets) 0%Q))
    by (rewrite length_map, length_seq; lia).
  rewrite (map_nth (fun d => nth (d * M0 + j) (flat targets) 0%Q)).
  rewrite seq_nth by lia. cbn [Nat.add].
  subst targets. unfold T. cbn [shape flat rev app prod fold_right].
  rewrite !Nat.mul_1_r.
  set (f := fun k => nth _ _ 0%Q).
  rewrite (nth_indep _ 0%Q (f 0%nat))
    by (rewrite length_map, length_seq; nia).
  rewrite (map_nth f). rewrite seq_nth by nia. cbn [Nat.add]. subst f. cbv beta.
  cbn [unravel prod fold_right rev app ravel].
  rewrite !Nat.mul_1_r, Nat.div_1_r, Nat.add_0_r.
  assert (Hq : ((D * M0 + j) / M0)%nat = D).
  { rewrite Nat.div_add_l by lia.
    rewrite (Nat.div_small j M0) by lia. lia. }
  assert (Hr : ((D * M0 + j) mod M0)%nat = j).
  { rewrite Nat.add_comm, Nat.Div0.mod_add. apply Nat.mod_small. lia. }
  rewrite Hq, Hr.
  assert (Hrows : Forall (fun l => List.length l = S D)
                         (map (fun p => p ++ [1%Q]) (chunks D M0 (flat raw)))).
  { apply Forall_forall. intros l Hl. apply in_map_iff in Hl.
    destruct Hl as (p & <- & Hp). rewrite length_app. cbn.
    assert (Hc : Forall (fun c => List.length c = D) (chunks D M0 (flat raw))).
    { apply chunks_lengths. rewrite Hwf. unfold size. rewrite Hs. cbn. lia. }
    rewrite Forall_forall in Hc. rewrite (Hc _ Hp). lia. }
  rewrite (nth_concat_uniform 0%Q j Hrows) by lia.
  rewrite (nth_indep _ [] ((fun p => p ++ [1%Q]) []))
    by (rewrite length_map, chunks_length; exact Hj).
  rewrite (map_nth (fun p => p ++ [1%Q])).
  assert (Hc : List.length (nth j (chunks D M0 (flat raw)) []) = D).
  { assert (Hall : Forall (fun c => List.length c = D) (chunks D M0 (flat raw))).
    { apply chunks_lengths. rewrite Hwf. unfold size. rewrite Hs. cbn. lia. }
    rewrite Forall_forall in Hall. apply Hall. apply nth_In.
    rewrite chunks_length. exact Hj. }
  rewrite app_nth2 by lia. rewrite Hc, Nat.sub_diag. reflexivity.
Qed.

(** With a transform of [ndim] 4, every sample handed to the
    interpolation routine has coordinate 1 along the axis that follows
    the spatial ones, whatever the component it is meant for. *)
Lemma component_coordinate_is_one tf img r _ref t3 raw t targets :
  tf_ndim tf = 4%nat ->
  map_targets tf img r _ref = (t3, inr raw) ->
  volume_targets tf raw = (t, inr targets) ->
  exists M0,
    shape targets = [S (g_ndim (grid_of_image img)); M0]
    /\ forall j, (j < M0)%nat ->
         nth (g_ndim (grid_of_image img)) (point targets j) 0%Q = 1%Q.
Proof.
  intros Hn E3 Ev.
  apply map_targets_dense in E3. destruct E3 as (y & _ & Hix).
  apply index_shape in Hix. destruct Hix as (m & c & _ & Hts & Hwf).
  pose proof (grid_of_image_ndim img) as HD.
  exists m. split.
  - eapply volume_targets_shape in Ev; [| exact Hn | exact Hts | lia].
    now destruct Ev.
  - eapply volume_targets_last_row; eauto. lia.
Qed.


(** The interpolation routine accepts every supported order and mode on
    a coordinate array with one row per axis of its input, and returns
    one value per column. *)
Lemma map_coordinates_accepts input idt coords dt order mode m cval prefilter M0 :
  (0 <= order <= 5)%Z ->
  _extend_mode_to_code mode = Some m ->
  shape coords = [ndim input; M0] ->
  ndim input <> 0%nat ->
  map_coordinates bspline input idt coords dt order mode cval prefilter
  = (EvMapCoordinates (shape input) (shape coords) :: numeric_calls order prefilter,
     inr (mk [M0]
            (map (fun j =>
                    interp_out (_get_output dt idt)
                      (if (order =? 0)%Z
                       then nearest_sample m input cval (point coords j)
                       else bspline order (prefilter && (1 <? order)%Z) m cval input
                                    (point coords j)))
                 (seq 0 (prod [M0]))))).
Proof.
  intros Ho Hm Hs Hn. unfold map_coordinates, call, numeric_calls. cbn [bind].
  destruct (Z.ltb_spec order 0); [lia |].
  destruct (Z.ltb_spec 5 order); [lia |]. cbn [orb].
  rewrite Hs. cbn [tl hd List.length].
  destruct (Nat.ltb_spec (ndim input) 1); [lia |]. cbn [Nat.ltb Nat.leb orb].
  rewrite Nat.eqb_refl. cbn [negb]. cbv zeta. rewrite Hm.
  destruct (prefilter && _); reflexivity.
Qed.


Lemma point_length coords j :
  List.length (point coords j) = hd 0%nat (shape coords).
Proof. unfold point. now rewrite length_map, length_seq. Qed.


(** *** The identity transform *)

Lemma chunks_concat k rows_ :
  Forall (fun p => List.length p = k) rows_ ->
  chunks k (List.length rows_) (List.concat rows_) = rows_.
Proof.
  induction 1 as [| p rows_ Hp _ IH]; [reflexivity |].
  cbn [List.length chunks List.concat].
  subst k. rewrite firstn_app, skipn_app, Nat.sub_diag. cbn [firstn skipn].
  rewrite firstn_all, skipn_all, app_nil_r. cbn [app]. now rewrite IH.
Qed.

Lemma map_nth_self (l : list Q) :
  map (fun d => nth d l 0%Q) (seq 0 (List.length l)) = l.
Proof.
  apply (nth_ext _ _ 0%Q 0%Q).
  - now rewrite length_map, length_seq.
  - intros n Hn. rewrite length_map, length_seq in Hn.
    rewrite (nth_indep _ 0%Q ((fun d => nth d l 0%Q) 0%nat))
      by (rewrite length_map, length_seq; exact Hn).
    rewrite (map_nth (fun d => nth d l 0%Q)). now rewrite seq_nth.
Qed.

(** Entry [(d, j)] of the array whose columns are the points [pts]. *)
Lemma columns_nth D pts d j :
  (d < D)%nat -> (j < List.length pts)%nat ->
  nth (d * List.length pts + j) (flat (columns D pts)) 0%Q
  = nth d (nth j pts []) 0%Q.
Proof.
  intros Hd Hj. unfold columns. cbn [flat].
  rewrite (@nth_concat_uniform _ (List.length pts)).
  - rewrite (nth_indep _ [] ((fun d => map (fun p => nth d p 0%Q) pts) 0%nat))
      by (rewrite length_map, length_seq; exact Hd).
    rewrite (map_nth (fun d => map (fun p => nth d p 0%Q) pts)).
    rewrite seq_nth by exact Hd. cbn [Nat.add].
    rewrite (nth_indep _ 0%Q ((fun p => nth d p 0%Q) []))
      by (rewrite length_map; exact Hj).
    now rewrite (map_nth (fun p => nth d p 0%Q)).
  - apply Forall_forall. intros l Hl. apply in_map_iff in Hl.
    destruct Hl as (d' & <- & _). apply length_map.
  - exact Hj.
Qed.

Lemma point_columns D pts j :
  (j < List.length pts)%nat ->
  point (columns D pts) j = map (fun d => nth d (nth j pts []) 0%Q) (seq 0 D).
Proof.
  intros Hj. unfold point.
  change (shape (columns D pts)) with [D; List.length pts].
  cbn [tl hd prod fold_right]. rewrite Nat.mul_1_r.
  apply map_ext_in. intros d Hd. apply in_seq in Hd.
  apply columns_nth; [lia | exact Hj].
Qed.

(** The transpose of the array whose columns are the points [pts] has
    those points as its rows. *)
Lemma T_columns D pts :
  Forall (fun p => List.length p = D) pts ->
  T (columns D pts) = mk [List.length pts; D] (List.concat pts).
Proof.
  intros Hpts. unfold T.
  change (shape (columns D pts)) with [D; List.length pts].
  cbn [rev app]. f_equal.
  set (N := List.length pts).
  apply (nth_ext _ _ 0%Q 0%Q).
  - rewrite length_map, length_seq, (concat_uniform_length Hpts).
    cbn [prod fold_right]. fold N. lia.
  - intros n Hn. rewrite length_map, length_seq in Hn.
    cbn [prod fold_right] in Hn. rewrite Nat.mul_1_r in Hn.
    assert (HD : D <> 0%nat) by nia.
    set (f := fun k => nth _ _ 0%Q).
    rewrite (nth_indep _ 0%Q (f 0%nat))
      by (rewrite length_map, length_seq; cbn [prod fold_right]; lia).
    rewrite (map_nth f). rewrite seq_nth by (cbn [prod fold_right]; lia).
    cbn [Nat.add]. subst f. cbv beta.
    cbn [unravel prod fold_right rev app ravel].
    rewrite !Nat.mul_1_r, Nat.div_1_r, Nat.add_0_r.
    assert (Hq : (n / D < N)%nat) by (apply Nat.Div0.div_lt_upper_bound; lia).
    assert (Hr : (n mod D < D)%nat) by (apply Nat.mod_upper_bound; exact HD).
    unfold N. rewrite columns_nth by assumption.
    rewrite (Nat.div_mod_eq n D) at 3.
    rewrite (Nat.mul_comm D (n / D)).
    symmetry. apply nth_concat_uniform; assumption.
Qed.

Lemma as_homogeneous_rows_of N D rows_ :
  List.length rows_ = N ->
  Forall (fun p => List.length p = D) rows_ ->
  as_homogeneous (mk [N; D] (List.concat rows_)) D
  = mk [N; S D] (List.concat (map (fun p => p ++ [1%Q]) rows_)).
Proof.
  intros HN Hrows. unfold as_homogeneous, atleast_2d, last_dim. cbn [shape last flat].
  destruct (Nat.eqb_spec D (D + 1)); [lia |].
  cbn [removelast app prod fold_right]. rewrite Nat.mul_1_r.
  rewrite <- HN, chunks_concat by exact Hrows. reflexivity.
Qed.

Lemma index_rows_of g N rows_ :
  List.length rows_ = N ->
  Forall (fun p => List.length p = S (g_ndim g)) rows_ ->
  index g (mk [N; S (g_ndim g)] (List.concat rows_))
  = inr (columns (g_ndim g)
           (map (fun p => firstn (g_ndim g) (mat_vec (g_inverse g) p)) rows_)).
Proof.
  intros HN Hrows. unfold index. cbn [shape flat].
  rewrite Nat.eqb_refl. rewrite <- HN, chunks_concat by exact Hrows. reflexivity.
Qed.

Lemma mat_vec_length m v : List.length (mat_vec m v) = List.length m.
Proof. unfold mat_vec. apply length_map. Qed.

Lemma unravel_length s j : List.length (unravel s j) = List.length s.
Proof. revert j. induction s as [| d s IH]; intros j; cbn; [| rewrite IH]; reflexivity. Qed.

Lemma grid_point_length s j : List.length (grid_point s j) = List.length s.
Proof. unfold grid_point. now rewrite length_map, unravel_length. Qed.

(** The index coordinates, in an image whose inverse undoes the affine
    of the grid, of the world coordinates of the grid's points: the
    grid's own points. *)
Lemma own_index_coordinates g img :
  g_ndim (grid_of_image img) = g_ndim g ->
  (g_ndim g <= List.length (g_affine g))%nat ->
  inverts (inverse img) (g_affine g) (g_shape g) ->
  exists targets,
    index (grid_of_image img)
          (as_homogeneous (T (grid_ndcoords g)) (g_ndim g)) = inr targets
    /\ shape targets = [g_ndim g; g_npoints g]
    /\ forall j, (j < g_npoints g)%nat ->
         Forall2 Qeq (point targets j) (grid_point (g_shape g) j).
Proof.
  intros HD Haff Hinv. unfold grid_ndcoords.
  set (world := fun n => firstn (g_ndim g) (mat_vec (g_affine g) _)).
  set (pts := map world (seq 0 (g_npoints g))).
  assert (HN : List.length pts = g_npoints g)
    by (unfold pts; now rewrite length_map, length_seq).
  assert (Hpts : Forall (fun p => List.length p = g_ndim g) pts).
  { apply Forall_forall. intros p Hp. apply in_map_iff in Hp.
    destruct Hp as (n & <- & _). unfold world.
    rewrite length_firstn, mat_vec_length. lia. }
  rewrite (T_columns Hpts), HN.
  rewrite (as_homogeneous_rows_of HN Hpts).
  assert (Hhom : Forall (fun p => List.length p = S (g_ndim (grid_of_image img)))
                        (map (fun p => p ++ [1%Q]) pts)).
  { apply Forall_forall. intros p Hp. apply in_map_iff in Hp.
    destruct Hp as (q & <- & Hq). rewrite Forall_forall in Hpts.
    rewrite length_app, (Hpts _ Hq), HD. cbn. lia. }
  replace (S (g_ndim g)) with (S (g_ndim (grid_of_image img))) by (now rewrite HD).
  rewrite index_rows_of; [| now rewrite length_map | exact Hhom].
  eexists. split; [reflexivity |]. split.
  - cbn [shape columns]. now rewrite !length_map, HN, HD.
  - intros j Hj. rewrite point_columns by (now rewrite !length_map, HN).
    rewrite map_map.
    rewrite (nth_indep _ [] ((fun p => firstn (g_ndim (grid_of_image img))
                                         (mat_vec (g_inverse (grid_of_image img))
                                                  (p ++ [1%Q]))) []))
      by (now rewrite length_map, HN).
    rewrite (map_nth (fun p => firstn (g_ndim (grid_of_image img))
                                 (mat_vec (g_inverse (grid_of_image img))
                                          (p ++ [1%Q])))).
    unfold pts.
    rewrite (nth_indep _ [] (world 0%nat)) by (now rewrite length_map, length_seq).
    rewrite (map_nth world), seq_nth by exact Hj. cbn [Nat.add].
    specialize (Hinv j Hj). fold (g_ndim g) in Hinv.
    rewrite HD. cbn [grid_of_image g_inverse].
    unfold world. fold (grid_point (g_shape g) j).
    assert (Hlen : List.length
                     (firstn (g_ndim g)
                        (mat_vec (inverse img)
                           (firstn (g_ndim g)
                              (mat_vec (g_affine g) (grid_point (g_shape g) j ++ [1]))
                              ++ [1]))) = g_ndim g).
    { rewrite (Forall2_length Hinv). apply grid_point_length. }
    rewrite <- Hlen at 1. rewrite map_nth_self. exact Hinv.
Qed.

Lemma interp_out_comp dt a b : a == b -> interp_out dt a == interp_out dt b.
Proof.
  intros H. unfold interp_out. destruct (int_range dt) as [[lo hi] |]; [| exact H].
  cbv zeta.
  set (ta := if Qle_bool a 0 then _ else _).
  set (tb := if Qle_bool b 0 then _ else _).
  assert (H1 : ta == tb).
  { subst ta tb. assert (Qle_bool a 0 = Qle_bool b 0) as -> by now rewrite H.
    destruct (Qle_bool b 0); [destruct (lo <? 0)%Z |]; now rewrite ?H. }
  clearbody ta tb.
  set (ua := if Qle_bool ta _ then _ else _).
  set (ub := if Qle_bool tb _ then _ else _).
  assert (H2 : ua == ub).
  { subst ua ub.
    assert (Qle_bool ta (inject_Z hi) = Qle_bool tb (inject_Z hi)) as ->
        by now rewrite H1.
    destruct (Qle_bool tb _); [exact H1 | reflexivity]. }
  clearbody ua ub.
  set (va := if Qle_bool _ ua then _ else _).
  set (vb := if Qle_bool _ ub then _ else _).
  assert (H3 : va == vb).
  { subst va vb.
    assert (Qle_bool (inject_Z lo) ua = Qle_bool (inject_Z lo) ub) as ->
        by now rewrite H2.
    destruct (Qle_bool _ ub); [exact H2 | reflexivity]. }
  clearbody va vb. unfold truncate.
  assert (Qle_bool 0 va = Qle_bool 0 vb) as -> by now rewrite H3.
  rewrite (Qfloor_comp _ _ H3), (Qceiling_comp _ _ H3). reflexivity.
Qed.

Lemma Forall2_map_seq (F : nat -> Q) l a :
  (forall j, (j < List.length l)%nat -> F (a + j)%nat == nth j l 0) ->
  Forall2 Qeq (map F (seq a (List.length l))) l.
Proof.
  revert a. induction l as [| x l IH]; intros a H; [constructor |].
  cbn [List.length seq map]. constructor.
  - specialize (H 0%nat). rewrite Nat.add_0_r in H. apply H. cbn. lia.
  - apply IH. intros j Hj. specialize (H (S j)).
    rewrite Nat.add_succ_r in H. apply H. cbn. lia.
Qed.

(** C1, as amended: a 3-D source array on a grid, the identity transform
    (of [ndim] 3), the grid as the reference, an order from 1 to 5,
    [prefilter] set, any supported mode and fill value.  When the kernel
    reproduces the stored samples at their own coordinates, when the
    image's inverse undoes the grid's affine, and when the array holds
    values of the result's element type, the call succeeds and returns an
    image on the grid whose array has the shape of the source array and,
    at every sample, the value of the source array. *)
Theorem identity_reproduces fs tf spatialimage reference order mode m cval dt
        t1 r g t2 img :
  resolve_reference fs tf reference = (t1, inr (r, RefGrid g)) ->
  load_image fs spatialimage = (t2, inr img) ->
  tf_to_field tf = None ->
  tf_ndim tf = 3%nat ->
  (forall x, tf_map tf x = inr x) ->
  g_shape g = shape (dataobj img) ->
  ndim (dataobj img) = 3%nat ->
  wf (dataobj img) ->
  (3 <= List.length (g_affine g))%nat ->
  inverts (inverse img) (g_affine g) (g_shape g) ->
  holds (_get_output dt (dataobj_dtype img)) (dataobj img) ->
  (1 <= order <= 5)%Z ->
  _extend_mode_to_code mode = Some m ->
  reproduces bspline order m cval (dataobj img) ->
  exists arr hdr,
    apply bspline fs tf spatialimage reference order mode cval true dt
    = (t1 ++ t2
         ++ [EvMap; EvIndex;
             EvMapCoordinates (shape (dataobj img)) [3%nat; size (dataobj img)]]
         ++ numeric_calls order true,
       inr (Moved arr (g_affine g) hdr))
    /\ shape arr = shape (dataobj img)
    /\ Forall2 Qeq (flat arr) (flat (dataobj img)).
Proof.
  intros E1 E2 Hf Hn Hmap Hshape Hrank Hwf Haff Hinv Hholds Ho Hm Hrep.
  assert (HDg : g_ndim g = 3%nat) by (unfold g_ndim; now rewrite Hshape).
  assert (HDi : g_ndim (grid_of_image img) = g_ndim g).
  { rewrite HDg. unfold g_ndim, grid_of_image. cbn [g_shape].
    rewrite length_firstn. unfold ndim in Hrank. lia. }
  assert (HN : g_npoints g = size (dataobj img))
    by (unfold g_npoints, size; now rewrite Hshape).
  destruct (@own_index_coordinates g img HDi) as (targets & Hix & Hts & Hpt);
    [lia | exact Hinv |].
  rewrite HDg, HN in Hts.
  assert (E3 : map_targets tf img r (RefGrid g) = ([EvMap; EvIndex], inr targets)).
  { unfold map_targets, call. rewrite Hf, Hmap. cbn [bind ndcoords ref_ndim app].
    rewrite Hix. reflexivity. }
  assert (Ev : volume_targets tf targets = ([], inr targets)).
  { rewrite volume_targets_other by (rewrite Hn; discriminate). reflexivity. }
  assert (Hpad : pad_components tf (dataobj img) = dataobj img).
  { unfold pad_components. now rewrite Hrank, Hn. }
  erewrite apply_resolved by eassumption. cbv zeta.
  rewrite check_components_rank by (rewrite Hrank; discriminate).
  cbn [bind ret app]. rewrite Hpad.
  erewrite interpolate_mapped; [| exact E3 | exact Ev]. cbv zeta.
  erewrite map_coordinates_accepts with (M0 := size (dataobj img));
    [| lia | exact Hm | now rewrite Hts, Hrank | now rewrite Hrank].
  destruct (Z.eqb_spec order 0) as [| _]; [lia |].
  cbn [andb prod fold_right bind]. rewrite Nat.mul_1_r.
  set (vals := map _ (seq 0 (size (dataobj img)))).
  assert (Hre : reshape (mk [size (dataobj img)] vals) (dims_of (g_shape g))
                = inr (mk (g_shape g) vals)).
  { unfold reshape. rewrite unknowns_dims_of, known_dims_of.
    unfold size at 1. cbn [shape prod fold_right]. rewrite Nat.mul_1_r.
    fold (g_npoints g). rewrite HN, Z.eqb_refl, to_nat_dims_of. reflexivity. }
  unfold assemble, lift. rewrite Hrank. cbn [Nat.ltb Nat.leb bind].
  rewrite Hre. cbn [bind ret app trace outcome fst snd].
  rewrite Hts.
  eexists _, _. split; [rewrite app_nil_r; reflexivity |].
  split; [exact Hshape |]. cbn [flat]. subst vals.
  rewrite <- Hwf. apply Forall2_map_seq. intros j Hj. cbn [Nat.add].
  rewrite Hwf in Hj.
  rewrite (@interp_out_comp _ _ (nth j (flat (dataobj img)) 0)).
  - unfold holds in Hholds. rewrite Forall_forall in Hholds.
    apply Hholds, nth_In. now rewrite Hwf.
  - apply Hrep; [exact Hj |]. rewrite <- Hshape. apply Hpt. now rewrite HN.
Qed.

(** ** Further properties of [apply] *)

Lemma prod_app s1 s2 : prod (s1 ++ s2) = (prod s1 * prod s2)%nat.
Proof.
  unfold prod. induction s1 as [| d s1 IH]; cbn [app fold_right]; [lia |].
  rewrite IH. lia.
Qed.

(** One value per point the mapping returned. *)
Lemma interpolate_count tf img r _ref data idt order mode cval prefilter dt
      t3 raw t targets t4 res :
  map_targets tf img r _ref = (t3, inr raw) ->
  volume_targets tf raw = (t, inr targets) ->
  map_coordinates bspline data idt targets dt order mode cval prefilter
  = (t4, inr res) ->
  exists y,
    dense_map tf r (T (ndcoords _ref)) = inr y
    /\ shape res = [rows y]
    /\ wf res.
Proof.
  intros E3 Ev E4.
  apply map_targets_dense in E3. destruct E3 as (y & Hy & Hix).
  apply index_shape in Hix. destruct Hix as (m & c & Hah & Hts & _).
  apply as_homogeneous_rows in Hah.
  apply map_coordinates_ok in E4. destruct E4 as (md & _ & _ & Hrs & Hflat).
  pose proof (grid_of_image_ndim img) as HD.
  assert (Htl : tl (shape targets) = [m]).
  { destruct (Nat.eq_dec (tf_ndim tf) 4) as [H4 | H4].
    - eapply volume_targets_shape in Ev; [| exact H4 | exact Hts | lia].
      destruct Ev as [-> _]. reflexivity.
    - rewrite volume_targets_other in Ev by exact H4.
      inversion Ev; subst targets. now rewrite Hts. }
  exists y. split; [exact Hy |]. split.
  - now rewrite Hrs, Htl, Hah.
  - unfold wf, size. rewrite Hflat, length_map, length_seq, Hrs. reflexivity.
Qed.

(** X1: on a reference that is not an image grid, a call that succeeds
    returns the bare array of interpolated values, one per point the
    mapping returned, as a vector: it is neither reshaped nor wrapped in
    an image. *)
Theorem result_on_samples fs tf spatialimage reference order mode cval prefilter dt
        tr x t1 r s :
  apply bspline fs tf spatialimage reference order mode cval prefilter dt
  = (tr, inr x) ->
  resolve_reference fs tf reference = (t1, inr (r, RefSamples s)) ->
  exists res y,
    x = Bare res
    /\ dense_map tf r (T (s_ndcoords s)) = inr y
    /\ shape res = [rows y]
    /\ wf res.
Proof.
  intros Happ E1.
  apply apply_inv in Happ.
  destruct Happ as (t1' & r' & _ref & t2 & img & ti & E1' & E2 & Ec & Ei & ->).
  rewrite E1 in E1'. inversion E1'; subst t1' r' _ref.
  apply interpolate_inv in Ei.
  destruct Ei as (t3 & raw & targets & t4 & res & E3 & Ev & E4 & Ea & ->).
  pose proof E4 as HC. eapply interpolate_count in HC; [| exact E3 | exact Ev].
  destruct HC as (y & Hy & Hs & Hwf).
  cbn in Ea. inversion Ea; subst x.
  exists res, y. auto.
Qed.

(** X2: on an image-grid reference, a call that succeeds returns an image
    with the reference's affine; its header is the reference's header with
    the element type set to [output_dtype], or to the source image's
    on-disk type when [output_dtype] is not given, and there is no header
    when the reference has none; the array has as many values as its shape
    says. *)
Theorem result_image_metadata fs tf spatialimage reference order mode cval prefilter
        dt tr x t1 r g t2 img :
  apply bspline fs tf spatialimage reference order mode cval prefilter dt
  = (tr, inr x) ->
  resolve_reference fs tf reference = (t1, inr (r, RefGrid g)) ->
  load_image fs spatialimage = (t2, inr img) ->
  exists arr hdr,
    x = Moved arr (g_affine g) hdr
    /\ wf arr
    /\ match g_header g with
       | None => hdr = None
       | Some h =>
           exists h', hdr = Some h'
                      /\ hdr_rest h' = hdr_rest h
                      /\ hdr_dtype h' = match dt with
                                        | Some d => d
                                        | None => get_data_dtype img
                                        end
       end.
Proof.
  intros Happ E1 E2.
  apply apply_inv in Happ.
  destruct Happ as (t1' & r' & _ref & t2' & img' & ti & E1' & E2' & Ec & Ei & ->).
  rewrite E1 in E1'. inversion E1'; subst t1' r' _ref.
  rewrite E2 in E2'. inversion E2'; subst t2' img'.
  apply interpolate_inv in Ei.
  destruct Ei as (t3 & raw & targets & t4 & res & E3 & Ev & E4 & Ea & ->).
  pose proof E4 as HC. eapply interpolate_count in HC; [| exact E3 | exact Ev].
  destruct HC as (y & _ & _ & Hwf).
  revert Ea. unfold assemble, lift. cbn [bind].
  destruct (reshape res _) as [e | arr] eqn:Hre; [discriminate |].
  cbn. intros Ea. inversion Ea; subst x.
  eexists arr, _. split; [reflexivity |]. split.
  - unfold wf in *. rewrite (reshape_flat _ _ Hre), Hwf.
    destruct (ndim (pad_components tf (dataobj img)) <? 4)%nat.
    + apply reshape_dims_of in Hre. destruct Hre as (Hs & _ & Hp).
      unfold size. now rewrite Hs.
    + apply reshape_infer_last in Hre. destruct Hre as (k & Hs & _ & Hk & _).
      unfold size at 2. rewrite Hs, prod_app. cbn. lia.
  - destruct (g_header g) as [h |]; [| reflexivity].
    eexists. split; [reflexivity |]. split; reflexivity.
Qed.

(** X3: when the result gets no trailing axis, a call that succeeds on an
    image grid had the mapping return exactly one point per grid point:
    a mapping that returns any other number of points makes [apply]
    fail. *)
Theorem one_point_per_grid_point fs tf spatialimage reference order mode cval
        prefilter dt tr x t1 r g t2 img :
  apply bspline fs tf spatialimage reference order mode cval prefilter dt
  = (tr, inr x) ->
  resolve_reference fs tf reference = (t1, inr (r, RefGrid g)) ->
  load_image fs spatialimage = (t2, inr img) ->
  ~ has_trailing_axis (ndim (dataobj img)) (tf_ndim tf) ->
  exists y,
    dense_map tf r (T (grid_ndcoords g)) = inr y
    /\ rows y = prod (g_shape g).
Proof.
  intros Happ E1 E2 Hno.
  apply apply_inv in Happ.
  destruct Happ as (t1' & r' & _ref & t2' & img' & ti & E1' & E2' & Ec & Ei & ->).
  rewrite E1 in E1'. inversion E1'; subst t1' r' _ref.
  rewrite E2 in E2'. inversion E2'; subst t2' img'.
  apply interpolate_inv in Ei.
  destruct Ei as (t3 & raw & targets & t4 & res & E3 & Ev & E4 & Ea & ->).
  pose proof E4 as HC. eapply interpolate_count in HC; [| exact E3 | exact Ev].
  destruct HC as (y & Hy & Hs & _).
  apply assemble_grid in Ea. destruct Ea as (arr & hdr & _ & Hre).
  rewrite <- padded_rank in Hno.
  assert (Hlt : (ndim (pad_components tf (dataobj img)) <? 4)%nat = true)
    by (apply Nat.ltb_lt; lia).
  rewrite Hlt in Hre. apply reshape_dims_of in Hre. destruct Hre as (_ & _ & Hp).
  exists y. split; [exact Hy |].
  unfold size in Hp. rewrite Hs in Hp. cbn in Hp. lia.
Qed.

(** *** The reference and the paths *)

(** X4: given a [reference] argument, [apply] never consults the
    transform's own reference: the calls made and the outcome are the same
    whatever reference the transform carries. *)
Theorem explicit_reference_wins fs tf own spatialimage ref order mode cval
        prefilter dt :
  apply bspline fs (with_reference tf own) spatialimage (Some ref)
        order mode cval prefilter dt
  = apply bspline fs tf spatialimage (Some ref) order mode cval prefilter dt.
Proof.
  assert (H : resolve_reference fs (with_reference tf own) (Some ref)
              = resolve_reference fs tf (Some ref)).
  { unfold resolve_reference.
    destruct ref as [p | img | g | s]; try reflexivity.
    unfold _nbload, call. cbn. destruct (fs p); reflexivity. }
  unfold apply. rewrite H. reflexivity.
Qed.

Lemma resolve_reference_path fs tf p ref_img :
  fs p = Some ref_img ->
  resolve_reference fs tf (Some (RPath p))
  = ([EvLoad p], inr (Some (RImage ref_img), RefGrid (grid_of_image ref_img))).
Proof.
  intros H. unfold resolve_reference, _nbload, call. cbn. rewrite H. reflexivity.
Qed.

(** X5: a reference given as a path is loaded first, and the call goes on
    exactly as if the loaded image had been passed: the same outcome, and
    the same calls after the load. *)
Theorem reference_path_as_image fs tf spatialimage p ref_img order mode cval
        prefilter dt :
  fs p = Some ref_img ->
  apply bspline fs tf spatialimage (Some (RPath p)) order mode cval prefilter dt
  = (EvLoad p
       :: trace (apply bspline fs tf spatialimage (Some (RImage ref_img))
                       order mode cval prefilter dt),
     outcome (apply bspline fs tf spatialimage (Some (RImage ref_img))
                    order mode cval prefilter dt)).
Proof.
  intros H. unfold apply.
  erewrite bind_ok by (apply resolve_reference_path; exact H).
  assert (HI : resolve_reference fs tf (Some (RImage ref_img))
               = ([], inr (Some (RImage ref_img), RefGrid (grid_of_image ref_img))))
    by reflexivity.
  erewrite (@bind_ok _ _ (resolve_reference fs tf (Some (RImage ref_img))) _ _ _ HI).
  reflexivity.
Qed.

(** X6: a reference path that cannot be loaded ends the call there: the
    loader's error is the outcome, the transform's own reference is not
    used instead, and the image is not loaded. *)
Theorem missing_reference_file fs tf spatialimage p order mode cval prefilter dt :
  fs p = None ->
  apply bspline fs tf spatialimage (Some (RPath p)) order mode cval prefilter dt
  = ([EvLoad p], inl (FileNotFoundError p)).
Proof.
  intros H. apply apply_unresolved.
  unfold resolve_reference, _nbload, call. cbn. rewrite H. reflexivity.
Qed.

(** X7: an image given as a path is loaded after the reference is
    resolved, and the call goes on exactly as if the loaded image had been
    passed: the same outcome, and the same calls but for that load. *)
Theorem image_path_as_object fs tf p img reference order mode cval prefilter dt :
  fs p = Some img ->
  outcome (apply bspline fs tf (IPath p) reference order mode cval prefilter dt)
  = outcome (apply bspline fs tf (IObj img) reference order mode cval prefilter dt)
  /\ (forall t1 rr,
        resolve_reference fs tf reference = (t1, inr rr) ->
        exists rest,
          trace (apply bspline fs tf (IObj img) reference order mode cval prefilter dt)
          = t1 ++ rest
          /\ trace (apply bspline fs tf (IPath p) reference order mode cval
                          prefilter dt)
             = t1 ++ EvLoad p :: rest).
Proof.
  intros H.
  assert (HP : load_image fs (IPath p) = ([EvLoad p], inr img)).
  { unfold load_image, _nbload, call. now rewrite H. }
  assert (HO : load_image fs (IObj img) = ([], inr img)) by reflexivity.
  destruct (resolve_reference fs tf reference) as [t1 [e | [r _ref]]] eqn:E1.
  - erewrite !apply_unresolved by eassumption. split; [reflexivity |].
    intros t1' rr Hrr. discriminate.
  - erewrite !apply_resolved by eassumption.
    cbv zeta. cbn [trace outcome fst snd]. split; [reflexivity |].
    intros t1' rr Hrr. inversion Hrr; subst t1' rr.
    eexists. split; reflexivity.
Qed.

(** *** The calls of a successful call *)

Lemma resolve_reference_ok_trace fs tf reference t1 rr :
  resolve_reference fs tf reference = (t1, inr rr) ->
  t1 = match reference with
       | Some (RPath p) => [EvLoad p]
       | _ => []
       end.
Proof.
  unfold resolve_reference, _nbload, call.
  destruct reference as [[p | img | g | s] |]; cbn.
  - destruct (fs p); cbn; intros H; inversion H; reflexivity.
  - intros H; inversion H; reflexivity.
  - intros H; inversion H; reflexivity.
  - intros H; inversion H; reflexivity.
  - destruct (tf_reference tf); cbn; intros H; inversion H; reflexivity.
Qed.

Lemma load_image_ok_trace fs spatialimage t2 img :
  load_image fs spatialimage = (t2, inr img) ->
  t2 = match spatialimage with
       | IPath p => [EvLoad p]
       | IObj _ => []
       end.
Proof.
  unfold load_image, _nbload, call. destruct spatialimage as [p | i].
  - intros H; inversion H; reflexivity.
  - intros H; inversion H; reflexivity.
Qed.

Lemma map_coordinates_ok_trace input idt coords dt order mode cval prefilter t4 res :
  map_coordinates bspline input idt coords dt order mode cval prefilter = (t4, inr res) ->
  t4 = EvMapCoordinates (shape input) (shape coords) :: numeric_calls order prefilter.
Proof.
  unfold map_coordinates, call, numeric_calls. cbn [bind].
  destruct (_ || _); [cbn; discriminate |].
  destruct (_ || _); [cbn; discriminate |].
  destruct (negb _); [cbn; discriminate |].
  destruct (_extend_mode_to_code mode) as [m |]; [| cbn; discriminate].
  destruct (prefilter && _); cbn; intros H; inversion H; reflexivity.
Qed.

(** X8: a call that succeeds has made these calls and no other, in this
    order: the load of the reference when it was given as a path, the load
    of the image when it was given as a path, one call of the transform's
    [map] (or of [to_field] and then of the field's [map]), one index
    conversion, one call of the interpolation routine on the padded data,
    with a prefiltering pass exactly when [prefilter] is set and the order
    is above 1. *)
Theorem calls_of_a_successful_call fs tf spatialimage reference order mode cval
        prefilter dt tr x :
  apply bspline fs tf spatialimage reference order mode cval prefilter dt
  = (tr, inr x) ->
  exists t2 img coords_shape,
    load_image fs spatialimage = (t2, inr img)
    /\ tr = path_loads reference spatialimage
            ++ mapping_calls fs tf reference
            ++ EvMapCoordinates (shape (pad_components tf (dataobj img))) coords_shape
            :: numeric_calls order prefilter.
Proof.
  intros Happ. apply apply_inv in Happ.
  destruct Happ as (t1 & r & _ref & t2 & img & ti & E1 & E2 & Ec & Ei & ->).
  apply interpolate_inv in Ei.
  destruct Ei as (t3 & raw & targets & t4 & res & E3 & Ev & E4 & Ea & ->).
  exists t2, img, (shape targets). split; [exact E2 |].
  pose proof E1 as H1. apply resolve_reference_ok_trace in H1.
  pose proof E1 as Hr. apply resolve_reference_loaded in Hr.
  apply load_image_ok_trace in E2.
  apply map_targets_ok_trace in E3.
  apply map_coordinates_ok_trace in E4.
  subst t1 t2 t3 t4 r.
  unfold path_loads, mapping_calls. rewrite <- !app_assoc. reflexivity.
Qed.

(** *** Arguments that do not matter *)

Lemma bind_ext {A B} (m : M A) (f g : A -> M B) :
  (forall a, f a = g a) -> bind m f = bind m g.
Proof. intros H. destruct m as [t [e | a]]; cbn; [reflexivity | now rewrite H]. Qed.

Lemma map_coordinates_low_order input idt coords dt order mode cval p1 p2 :
  (order <= 1)%Z ->
  map_coordinates bspline input idt coords dt order mode cval p1
  = map_coordinates bspline input idt coords dt order mode cval p2.
Proof.
  intros H. unfold map_coordinates.
  assert (Hlt : (1 <? order)%Z = false) by (apply Z.ltb_ge; exact H).
  rewrite Hlt, !andb_false_r. reflexivity.
Qed.

(** X9: at order 0 and at order 1 the [prefilter] argument has no effect
    at all: the calls made and the outcome are the same with and without
    it. *)
Theorem low_order_ignores_prefilter fs tf spatialimage reference order mode cval dt
        p1 p2 :
  (order <= 1)%Z ->
  apply bspline fs tf spatialimage reference order mode cval p1 dt
  = apply bspline fs tf spatialimage reference order mode cval p2 dt.
Proof.
  intros H. unfold apply, interpolate.
  apply bind_ext; intros rr. apply bind_ext; intros img.
  apply bind_ext; intros _. apply bind_ext; intros raw.
  apply bind_ext; intros targets.
  now rewrite map_coordinates_low_order with (p1 := p1) (p2 := p2) by exact H.
Qed.

Lemma nearest_sample_cval m input c1 c2 pt :
  m <> Constant -> m <> GridConstant ->
  nearest_sample m input c1 pt = nearest_sample m input c2 pt.
Proof.
  intros Hm Hg. unfold nearest_sample.
  destruct (locate_all m (shape input) pt) eqn:E; [reflexivity |].
  apply locate_all_none in E. tauto.
Qed.

Lemma map_coordinates_nearest_cval input idt coords dt mode c1 c2 prefilter :
  mode <> "constant" -> mode <> "grid-constant" ->
  map_coordinates bspline input idt coords dt 0 mode c1 prefilter
  = map_coordinates bspline input idt coords dt 0 mode c2 prefilter.
Proof.
  intros Hm Hg. unfold map_coordinates.
  destruct (_extend_mode_to_code mode) as [m |] eqn:Em; [| reflexivity].
  assert (Hc : m <> Constant).
  { intros ->. apply Hm. now apply mode_code_constant. }
  assert (Hd : m <> GridConstant).
  { intros ->. apply Hg. now apply mode_code_grid_constant. }
  cbn [Z.eqb].
  rewrite (map_ext _ _
             (fun j => f_equal (interp_out (_get_output dt idt))
                         (nearest_sample_cval input c1 c2 (point coords j) Hc Hd))).
  reflexivity.
Qed.

(** X10: at order 0, in every mode but constant and grid-constant, the
    [cval] argument has no effect at all. *)
Theorem nearest_ignores_cval fs tf spatialimage reference mode c1 c2 prefilter dt :
  mode <> "constant" -> mode <> "grid-constant" ->
  apply bspline fs tf spatialimage reference 0 mode c1 prefilter dt
  = apply bspline fs tf spatialimage reference 0 mode c2 prefilter dt.
Proof.
  intros H Hg. unfold apply, interpolate.
  apply bind_ext; intros rr. apply bind_ext; intros img.
  apply bind_ext; intros _. apply bind_ext; intros raw.
  apply bind_ext; intros targets.
  now rewrite map_coordinates_nearest_cval with (c1 := c1) (c2 := c2)
    by assumption.
Qed.

(** *** The coordinates under a transform of [ndim] 4 *)

Lemma chunks_nth k n l j :
  (j < n)%nat -> nth j (chunks k n l) [] = firstn k (skipn (j * k) l).
Proof.
  revert l j. induction n as [| n IH]; intros l j Hj; [lia |].
  destruct j as [| j]; cbn [chunks nth Nat.mul Nat.add skipn]; [reflexivity |].
  rewrite IH by lia. rewrite skipn_skipn.
  replace (j * k + k)%nat with (k + j * k)%nat by lia. reflexivity.
Qed.

(** Column [j] of the transpose of an [(M, W)] array is its row [j]. *)
Lemma point_transpose M W rows_ j :
  List.length rows_ = M ->
  Forall (fun l => List.length l = W) rows_ ->
  (j < M)%nat ->
  point (T (mk [M; W] (List.concat rows_))) j = nth j rows_ [].
Proof.
  intros HM Hrows Hj.
  assert (Hlen : List.length (nth j rows_ []) = W).
  { rewrite Forall_forall in Hrows. apply Hrows, nth_In. lia. }
  etransitivity; [| apply (map_nth_self (nth j rows_ []))]. rewrite Hlen.
  unfold point, T. cbn [shape flat rev app tl hd prod fold_right].
  rewrite !Nat.mul_1_r.
  apply map_ext_in. intros d Hd. apply in_seq in Hd.
  set (f := fun k => nth _ _ 0%Q).
  rewrite (nth_indep _ 0%Q (f 0%nat)) by (rewrite length_map, length_seq; nia).
  rewrite (map_nth f). rewrite seq_nth by nia. cbn [Nat.add]. subst f. cbv beta.
  cbn [unravel prod fold_right rev app ravel].
  rewrite !Nat.mul_1_r, Nat.div_1_r, Nat.add_0_r.
  assert (Hq : ((d * M + j) / M)%nat = d).
  { rewrite Nat.div_add_l by lia. rewrite (Nat.div_small j M) by lia. lia. }
  assert (Hr : ((d * M + j) mod M)%nat = j).
  { rewrite Nat.add_comm, Nat.Div0.mod_add. apply Nat.mod_small. lia. }
  rewrite Hq, Hr.
  apply nth_concat_uniform; [exact Hrows | lia].
Qed.

(** X11: under a transform of [ndim] 4, sample [j] is interpolated at the
    point made of the entries [j * D] to [j * D + D - 1] of the index
    array in row-major order, followed by 1 ([D] being the number of
    spatial axes): the reshape of line 115 regroups the [(D, M)] array
    without transposing it. *)
Theorem volume_targets_points tf img r _ref t3 raw t targets :
  tf_ndim tf = 4%nat ->
  map_targets tf img r _ref = (t3, inr raw) ->
  volume_targets tf raw = (t, inr targets) ->
  exists M0,
    shape raw = [g_ndim (grid_of_image img); M0]
    /\ forall j, (j < M0)%nat ->
         point targets j
         = firstn (g_ndim (grid_of_image img))
                  (skipn (j * g_ndim (grid_of_image img)) (flat raw)) ++ [1%Q].
Proof.
  intros Hn E3 Hv.
  apply map_targets_dense in E3. destruct E3 as (y & _ & Hix).
  apply index_shape in Hix. destruct Hix as (M0 & c & _ & Hs & Hwf).
  pose proof (grid_of_image_ndim img) as HD3.
  remember (g_ndim (grid_of_image img)) as D eqn:HeqD. clear HeqD.
  assert (HD : D <> 4%nat) by lia.
  exists M0. split; [exact Hs |]. intros j Hj.
  revert Hv. unfold volume_targets, lift, first_dim. rewrite Hn, Hs.
  cbn [Nat.eqb bind app].
  destruct (reshape raw _) as [e | rsh] eqn:Er; [discriminate |].
  cbn [bind ret app]. intros Hv. injection Hv as _ Htg.
  apply reshape_infer_first in Er. destruct Er as (m & Hrs & Hrf & Hm & HD0).
  unfold size in Hm. rewrite Hs in Hm. cbn in Hm.
  assert (m = M0) as -> by nia.
  assert (H2 : atleast_2d rsh = rsh) by (unfold atleast_2d; now rewrite Hrs).
  assert (Hah : as_homogeneous rsh default_dim
                = mk [M0; S D]
                     (List.concat (map (fun p => p ++ [1%Q])
                                       (chunks D M0 (flat raw))))).
  { unfold as_homogeneous. rewrite H2. cbv zeta. unfold last_dim. rewrite Hrs.
    cbn [last]. unfold default_dim. apply Nat.eqb_neq in HD.
    cbn [Nat.add]. rewrite HD. rewrite Hrf. cbn [removelast app prod fold_right].
    now rewrite Nat.mul_1_r. }
  rewrite Hah in Htg. subst targets.
  assert (Hc : Forall (fun c => List.length c = D) (chunks D M0 (flat raw))).
  { apply chunks_lengths. rewrite Hwf. unfold size. rewrite Hs. cbn. lia. }
  rewrite point_transpose.
  - rewrite (nth_indep _ [] ((fun p => p ++ [1%Q]) []))
      by (rewrite length_map, chunks_length; exact Hj).
    rewrite (map_nth (fun p => p ++ [1%Q])). now rewrite chunks_nth.
  - now rewrite length_map, chunks_length.
  - apply Forall_forall. intros l Hl. apply in_map_iff in Hl.
    destruct Hl as (p & <- & Hp). rewrite length_app. cbn.
    rewrite Forall_forall in Hc. rewrite (Hc _ Hp). lia.
  - exact Hj.
Qed.

(** X12: a source array of rank 4 or more can only be resampled through a
    transform of [ndim] 4: under any other transform the call fails (the
    coordinate array has one row per spatial axis, at most three, and the
    interpolation routine wants one per axis of the data). *)
Theorem series_needs_ndim4 fs tf spatialimage reference order mode cval prefilter dt
        t2 img :
  load_image fs spatialimage = (t2, inr img) ->
  (4 <= ndim (dataobj img))%nat ->
  tf_ndim tf <> 4%nat ->
  exists tr e,
    apply bspline fs tf spatialimage reference order mode cval prefilter dt
    = (tr, inl e).
Proof.
  intros E2 Hrank Hn.
  destruct (apply bspline fs tf spatialimage reference order mode cval prefilter dt)
    as [tr [e | x]] eqn:Happ; [eauto |].
  exfalso. apply apply_inv in Happ.
  destruct Happ as (t1 & r & _ref & t2' & img' & ti & E1 & E2' & Ec & Ei & ->).
  rewrite E2 in E2'. inversion E2'; subst t2' img'.
  apply interpolate_inv in Ei.
  destruct Ei as (t3 & raw & targets & t4 & res & E3 & Ev & E4 & Ea & ->).
  apply map_targets_dense in E3. destruct E3 as (y & _ & Hix).
  apply index_shape in Hix. destruct Hix as (m & c & _ & Hts & _).
  rewrite volume_targets_other in Ev by exact Hn. inversion Ev; subst targets.
  apply map_coordinates_ok in E4. destruct E4 as (md & _ & Hhd & _ & _).
  rewrite Hts in Hhd. cbn [hd] in Hhd.
  pose proof (grid_of_image_ndim img) as HD.
  assert (Hpad : (4 <= ndim (pad_components tf (dataobj img)))%nat).
  { apply padded_rank. left. exact Hrank. }
  lia.
Qed.

(** *** A volume under a series of mappings *)

Lemma locate_all_component s pt :
  List.length pt = S (List.length s) ->
  nth (List.length s) pt 0%Q = 1%Q ->
  locate_all Constant (s ++ [1%nat]) pt = None.
Proof.
  revert pt. induction s as [| d s IH]; intros [| c pt] Hlen Hone;
    try discriminate.
  - cbn in Hone. subst c. reflexivity.
  - cbn [app locate_all]. rewrite IH.
    + destruct (locate Constant d c); reflexivity.
    + cbn in Hlen. lia.
    + exact Hone.
Qed.

(** X13: a 3-D source array resampled through a transform of [ndim] 4 at
    order 0 in mode constant comes back filled with [cval], converted to
    the element type of the result: the array is padded to one component
    (lines 98-99), and every sample is read at coordinate 1 of that axis
    (line 115), which is beyond its edge. *)
Theorem volume_under_series_is_filled fs tf spatialimage reference cval prefilter dt
        tr x t2 img :
  apply bspline fs tf spatialimage reference 0 "constant" cval prefilter dt
  = (tr, inr x) ->
  load_image fs spatialimage = (t2, inr img) ->
  ndim (dataobj img) = 3%nat ->
  tf_ndim tf = 4%nat ->
  Forall (fun v => v = interp_out (_get_output dt (dataobj_dtype img)) cval)
         (flat (result_array x)).
Proof.
  intros Happ E2 Hrank Hn.
  apply apply_inv in Happ.
  destruct Happ as (t1 & r & _ref & t2' & img' & ti & E1 & E2' & Ec & Ei & ->).
  rewrite E2 in E2'. inversion E2'; subst t2' img'.
  apply interpolate_inv in Ei.
  destruct Ei as (t3 & raw & targets & t4 & res & E3 & Ev & E4 & Ea & ->).
  apply assemble_flat in Ea. rewrite Ea.
  destruct (component_coordinate_is_one _ _ _ _ Hn E3 Ev) as (M0 & Hts & Hone).
  apply map_coordinates_ok in E4. destruct E4 as (m & Hm & _ & _ & Hflat).
  cbn in Hm. inversion Hm; subst m. cbn [Z.eqb] in Hflat.
  rewrite Hflat, Hts. cbn [tl prod fold_right]. rewrite Nat.mul_1_r.
  assert (HD : g_ndim (grid_of_image img) = List.length (shape (dataobj img))).
  { unfold g_ndim, grid_of_image. cbn [g_shape]. rewrite length_firstn.
    unfold ndim in Hrank. lia. }
  assert (Hpad : shape (pad_components tf (dataobj img))
                 = shape (dataobj img) ++ [1%nat]).
  { unfold pad_components. rewrite Hrank, Hn. reflexivity. }
  apply Forall_forall. intros v Hv. apply in_map_iff in Hv.
  destruct Hv as (j & <- & Hj). apply in_seq in Hj. f_equal.
  unfold nearest_sample. rewrite Hpad, locate_all_component; [reflexivity | |].
  - rewrite point_length, Hts. cbn [hd]. now rewrite HD.
  - rewrite <- HD. apply Hone. lia.
Qed.

(** X14: [len(transform)] is looked at for rank-4 data only: for a source
    array of any other rank the calls made and the outcome do not depend
    on it. *)
Theorem len_unused_off_rank4 fs tf n img reference order mode cval prefilter dt :
  ndim (dataobj img) <> 4%nat ->
  apply bspline fs (with_len tf n) (IObj img) reference order mode cval prefilter dt
  = apply bspline fs tf (IObj img) reference order mode cval prefilter dt.
Proof.
  intros H. unfold apply. apply bind_ext; intros rr.
  cbn [load_image bind ret app].
  rewrite !check_components_rank by exact H. reflexivity.
Qed.

End Properties.

(** ** The properties on concrete calls *)

Import Examples.

Lemma unravel_bounds s j :
  (j < prod s)%nat -> Forall2 lt (unravel s j) s.
Proof.
  revert j. induction s as [| d s IH]; intros j Hj; cbn [unravel]; constructor.
  - change (prod (d :: s)) with (d * prod s)%nat in Hj.
    apply Nat.Div0.div_lt_upper_bound. lia.
  - apply IH. apply Nat.mod_upper_bound.
    change (prod (d :: s)) with (d * prod s)%nat in Hj. lia.
Qed.

Lemma ravel_unravel s j : (j < prod s)%nat -> ravel s (unravel s j) = j.
Proof.
  revert j. induction s as [| d s IH]; intros j Hj.
  - cbn in *. lia.
  - change (prod (d :: s)) with (d * prod s)%nat in Hj.
    cbn [unravel ravel]. rewrite IH by (apply Nat.mod_upper_bound; lia).
    rewrite (Nat.div_mod_eq j (prod s)) at 3. lia.
Qed.

Lemma Qfloor_half z : Qfloor (inject_Z z + (1 # 2)) = z.
Proof.
  unfold Qfloor, Qplus, inject_Z. cbn [Qnum Qden Pos.mul].
  symmetry. apply (Z.div_unique _ _ _ 1); lia.
Qed.

(** At the coordinates of a stored sample, every mode reads that sample. *)
Lemma locate_at_sample m len i c :
  (i < len)%nat -> c == inject_Z (Z.of_nat i) -> locate m len c = Some i.
Proof.
  intros Hi Hc.
  assert (Hr : round_half_up c = Z.of_nat i).
  { unfold round_half_up. rewrite (Qfloor_comp _ (inject_Z (Z.of_nat i) + (1 # 2))).
    - apply Qfloor_half.
    - now rewrite Hc. }
  assert (Hf : fold_index m (Z.of_nat len) (Z.of_nat i) = Z.of_nat i).
  { unfold fold_index.
    destruct (Z.leb_spec 0 (Z.of_nat i)); [| lia].
    destruct (Z.ltb_spec (Z.of_nat i) (Z.of_nat len)); [reflexivity | lia]. }
  assert (Ho : out_of_bounds len c = false).
  { unfold out_of_bounds.
    assert (Qle_bool 0 c = true) as ->.
    { apply Qle_bool_iff. rewrite Hc. change 0 with (inject_Z 0).
      rewrite <- Zle_Qle. lia. }
    assert (Qle_bool c (inject_Z (Z.of_nat len - 1)) = true) as ->.
    { apply Qle_bool_iff. rewrite Hc. rewrite <- Zle_Qle. lia. }
    reflexivity. }
  assert (Hg : off_grid len c = false).
  { unfold off_grid. rewrite Hr.
    destruct (Z.ltb_spec (Z.of_nat i) 0); [lia |].
    destruct (Z.leb_spec (Z.of_nat len) (Z.of_nat i)); [lia | reflexivity]. }
  unfold locate. rewrite Hr, Hf, Ho, Hg, Nat2Z.id. destruct m; reflexivity.
Qed.

Lemma locate_all_at_sample m s idx pt :
  Forall2 lt idx s ->
  Forall2 Qeq pt (map (fun i => inject_Z (Z.of_nat i)) idx) ->
  locate_all m s pt = Some idx.
Proof.
  intros Hb. revert pt. induction Hb as [| i d idx s Hi _ IH]; intros pt Hpt.
  - reflexivity.
  - cbn [map] in Hpt. inversion Hpt as [| c x pt' l' Hc Hrest]; subst.
    cbn [locate_all]. rewrite (locate_at_sample m Hi Hc), (IH _ Hrest). reflexivity.
Qed.

(** The nearest-sample kernel reproduces the stored samples. *)
Lemma at_sample_reproduces order m cval input :
  reproduces at_sample order m cval input.
Proof.
  intros j pt Hj Hpt. unfold at_sample, nearest_sample.
  rewrite (@locate_all_at_sample m (shape input) (unravel (shape input) j) pt).
  - rewrite ravel_unravel by exact Hj. reflexivity.
  - apply unravel_bounds. exact Hj.
  - exact Hpt.
Qed.

(** C1 as stated fails on a source array with a component axis: three
    components 10, 20, 30 at the one point of a grid, that grid as the
    reference, order 3, prefilter set.  Under the identity transform the
    call fails (one mapping for three components; and with as many
    identity mappings as components, but [ndim] 3, the coordinate array
    has a row less than the data has axes); under a series of three
    identity mappings of [ndim] 4 it returns 20, 20, 20. *)
Lemma identity_on_components :
  flat (dataobj vol3) = [10; 20; 30]%Q
  /\ apply at_sample no_files (identity None) (IObj vol3) (Some (RImage vol3))
           3 "constant" 0 true None
     = ([],
        inl (ValueError
               "The fourth dimension of the data does not match the tranform's shape."))
  /\ apply at_sample no_files (series 3 3 None) (IObj vol3) (Some (RImage vol3))
           3 "constant" 0 true None
     = ([EvMap; EvIndex; EvMapCoordinates [1; 1; 1; 3]%nat [3; 3]%nat],
        inl (RuntimeError "invalid shape for coordinate array"))
  /\ apply at_sample no_files (series 4 3 None) (IObj vol3) (Some (RImage vol3))
           3 "constant" 0 true None
     = ([EvMap; EvIndex; EvMapCoordinates [1; 1; 1; 3]%nat [4; 3]%nat;
         EvPrefilter; EvInterpolate],
        inr (Moved (mk [1; 1; 1; 3]%nat [20; 20; 20]%Q) eye4 None)).
Proof. repeat split; vm_compute; reflexivity. Qed.

(** C1 as amended, on a call: two samples on a grid with a spacing of 2,
    order 3. *)
Lemma identity_reproduces_witness :
  exists arr hdr,
    apply at_sample no_files (identity None) (IObj pair) (Some (RImage pair))
          3 "constant" 0 true None
    = ([EvMap; EvIndex; EvMapCoordinates [2; 1; 1]%nat [3; 2]%nat;
        EvPrefilter; EvInterpolate],
       inr (Moved arr spaced hdr))
    /\ shape arr = [2; 1; 1]%nat
    /\ Forall2 Qeq (flat arr) [10; 20]%Q.
Proof.
  refine (@identity_reproduces at_sample no_files (identity None) (IObj pair)
            (Some (RImage pair)) 3%Z "constant" Constant 0%Q None
            [] (Some (RImage pair)) (grid_of_image pair) [] pair
            eq_refl eq_refl eq_refl eq_refl (fun x => eq_refl) eq_refl eq_refl
            eq_refl _ _ _ _ eq_refl _).
  - cbn. lia.
  - intros j Hj. destruct j as [| [| j]]; [| | cbn in Hj; lia];
      vm_compute; repeat constructor.
  - unfold holds. cbn. repeat constructor.
  - lia.
  - apply at_sample_reproduces.
Defined.

(** C5, on a call: no reference anywhere. *)
Lemma apply_without_reference_witness :
  apply no_blend no_files (shift None) (IObj ones333) None 3 "constant" 0 true None
  = ([], inl (TransformError "Cannot apply transform without reference")).
Proof.
  exact (@apply_without_reference no_blend no_files (shift None) (IObj ones333)
           3%Z "constant" 0%Q true None eq_refl).
Defined.

(** C4, on a call: three components under a series of two mappings. *)
Lemma component_mismatch_rejected_witness :
  apply no_blend no_files (series 4 2 None) (IObj vol3) (Some (RGrid unit_grid))
        0 "constant" 0 true None
  = ([],
     inl (ValueError
            "The fourth dimension of the data does not match the tranform's shape.")).
Proof.
  refine (proj1 (@component_mismatch_rejected no_blend no_files (series 4 2 None)
                   (IObj vol3) (Some (RGrid unit_grid)) 0%Z "constant" 0%Q true None
                   [] (Some (RGrid unit_grid), RefGrid unit_grid) [] vol3
                   eq_refl eq_refl eq_refl _)).
  vm_compute. discriminate.
Defined.

(** C6 as stated fails: with order 6 the call fails inside the
    interpolation routine, after the transform's [map] and the index
    conversion have run, and so does a mode the routine does not know;
    the mode [grid-wrap], which is none of the five, is accepted. *)
Lemma unsupported_order_after_mapping :
  apply no_blend no_files (shift None) (IObj ones333) (Some (RGrid unit_grid))
        6 "constant" 0 true None
  = ([EvMap; EvIndex; EvMapCoordinates [3; 3; 3]%nat [3; 1]%nat],
     inl (RuntimeError "spline order not supported"))
  /\ apply no_blend no_files (shift None) (IObj ones333) (Some (RGrid unit_grid))
           3 "periodic" 0 true None
     = ([EvMap; EvIndex; EvMapCoordinates [3; 3; 3]%nat [3; 1]%nat],
        inl (RuntimeError "boundary mode not supported"))
  /\ ~ In "grid-wrap" modes
  /\ apply no_blend no_files (shift None) (IObj ones333) (Some (RGrid unit_grid))
           0 "grid-wrap" 0 true None
     = ([EvMap; EvIndex; EvMapCoordinates [3; 3; 3]%nat [3; 1]%nat; EvInterpolate],
        inr (Moved (mk [1; 1; 1]%nat [1]%Q) eye4 None)).
Proof.
  split; [vm_compute; reflexivity |].
  split; [vm_compute; reflexivity |].
  split; [| vm_compute; reflexivity].
  unfold modes. simpl. intros [H | [H | [H | [H | [H | []]]]]]; discriminate.
Qed.

(** C6 as amended, on a call with order 6: the failure is the last call,
    after the transform's [map] and the index conversion. *)
Lemma unsupported_order_or_mode_witness :
  exists msg,
    apply no_blend no_files (shift None) (IObj ones333) (Some (RGrid unit_grid))
          6 "constant" 0 true None
    = ([EvMap; EvIndex; EvMapCoordinates [3; 3; 3]%nat [3; 1]%nat],
       inl (RuntimeError msg))
    /\ msg = "spline order not supported".
Proof.
  assert (H : (6 < 0 \/ 5 < 6)%Z \/ ~ In "constant" accepted_modes)
    by (left; right; reflexivity).
  destruct (proj2 (@unsupported_order_or_mode no_blend no_files (shift None)
                     (IObj ones333) (Some (RGrid unit_grid)) 6%Z "constant" 0%Q
                     true None H)
              [] (Some (RGrid unit_grid)) (RefGrid unit_grid) [] ones333
              [EvMap; EvIndex] (mk [3; 1]%nat [-1; 0; 0]%Q)
              (mk [3; 1]%nat [-1; 0; 0]%Q))
    as (msg & Happ & _ & Hmsg); try reflexivity.
  exists msg. split; [exact Happ |]. apply Hmsg. right. reflexivity.
Defined.


(** C9 as stated fails: given the reference as a path, [to_field]
    receives the image loaded from it, not the path. *)
Lemma to_field_receives_loaded_image :
  trace (apply no_blend one_file (modelled None) (IObj vol1)
               (Some (RPath "ref.nii")) 0 "nearest" 0 true None)
  = [EvLoad "ref.nii"; EvToField (Some (RImage vol1)); EvFieldMap; EvIndex;
     EvMapCoordinates [1; 1; 1]%nat [3; 1]%nat; EvInterpolate].
Proof. vm_compute. reflexivity. Qed.

(** C9 as amended, on a call: no [reference] argument, a transform that
    carries a one-sample grid as its reference and generates a field, a
    3x3x3 image: [to_field] gets [None], and the field maps the one point
    of the transform's reference. *)
Lemma field_transform_mapping_witness :
  let rest := resample_mapped no_blend (modelled (Some (RefGrid unit_grid)))
                ones333 (RefGrid unit_grid) (mk [1; 3]%nat [0; 0; 0]%Q)
                0 "nearest" 0 true None in
  T (ndcoords (RefGrid unit_grid)) = mk [1; 3]%nat [0; 0; 0]%Q
  /\ apply no_blend no_files (modelled (Some (RefGrid unit_grid))) (IObj ones333)
           None 0 "nearest" 0 true None
     = ([EvToField None; EvFieldMap] ++ trace rest, outcome rest)
  /\ rest = ([EvIndex; EvMapCoordinates [3; 3; 3]%nat [3; 1]%nat; EvInterpolate],
             inr (Moved (mk [1; 1; 1]%nat [1]%Q) eye4 None)).
Proof.
  split; [vm_compute; reflexivity |].
  split; [| vm_compute; reflexivity].
  pose proof (proj1 (proj2 (@field_transform_mapping no_blend no_files
                              (modelled (Some (RefGrid unit_grid)))
                              (fun _ => inr (mk_field (fun x => inr x)))
                              (IObj ones333) None 0%Z "nearest" 0%Q true None
                              [] None (RefGrid unit_grid) [] ones333
                              eq_refl eq_refl eq_refl eq_refl))) as H.
  cbv beta iota in H.
  replace (T (ndcoords (RefGrid unit_grid))) with (mk [1; 3]%nat [0; 0; 0]%Q) in H
    by (vm_compute; reflexivity).
  exact H.
Defined.


(** C2 as stated fails: a source array of rank 3 under a transform of
    [ndim] 4: the rank does not exceed the transform's dimensionality, and
    the result has a trailing axis. *)
Lemma trailing_axis_without_excess_rank :
  ndim (dataobj vol1) = 3%nat
  /\ tf_ndim (series 4 2 None) = 4%nat
  /\ outcome (apply no_blend no_files (series 4 2 None) (IObj vol1)
                    (Some (RGrid unit_grid)) 0 "nearest" 0 true None)
     = inr (Moved (mk [1; 1; 1; 2]%nat [7; 7]%Q) eye4 None).
Proof. repeat split. Qed.

(** C3 fails on the code: three components 10, 20, 30 at one grid point,
    a series of three identity mappings, order 0.  Interpolated
    independently the components would come back as 10, 20, 30; every
    output sample is read at coordinate 1 of the component axis, and the
    result is 20, 20, 20. *)
Lemma components_read_from_one_volume :
  apply no_blend no_files (series 4 3 None) (IObj vol3) (Some (RGrid unit_grid))
        0 "constant" 0 true None
  = ([EvMap; EvIndex; EvMapCoordinates [1; 1; 1; 3]%nat [4; 3]%nat; EvInterpolate],
     inr (Moved (mk [1; 1; 1; 3]%nat [20; 20; 20]%Q) eye4 None)).
Proof. vm_compute. reflexivity. Qed.

(** C2 as amended, on a call: three components under a series of three
    mappings; the trailing axis has length [len(transform)]. *)
Lemma resampled_shape_witness :
  exists arr hdr,
    Moved (mk [1; 1; 1; 3]%nat [20; 20; 20]%Q) eye4 None
    = Moved arr (g_affine unit_grid) hdr
    /\ shape arr = g_shape unit_grid ++ [tf_len (series 4 3 None)].
Proof.
  destruct (@resampled_shape no_blend no_files (series 4 3 None) (IObj vol3)
              (Some (RGrid unit_grid)) 0%Z "constant" 0%Q true None
              [EvMap; EvIndex; EvMapCoordinates [1; 1; 1; 3]%nat [4; 3]%nat;
               EvInterpolate]
              (Moved (mk [1; 1; 1; 3]%nat [20; 20; 20]%Q) eye4 None)
              [] (Some (RGrid unit_grid)) unit_grid [] vol3)
    as (arr & hdr & Hx & Htrail & _).
  - vm_compute. reflexivity.
  - reflexivity.
  - reflexivity.
  - exists arr, hdr. split; [exact Hx |].
    destruct Htrail as (k & y & Hs & Hy & _ & Hlen).
    + left. vm_compute. lia.
    + rewrite Hs. f_equal. f_equal. apply Hlen.
      vm_compute in Hy. injection Hy as <-. reflexivity.
Defined.


(** C8, on the call of the scenario: a translation by (-1, 0, 0) onto a
    one-sample grid. *)
Lemma constant_boundary_scenario_witness :
  (exists tr x,
      apply no_blend no_files (shift None) (IObj ones333) (Some (RGrid unit_grid))
            0 "constant" 5 true None = (tr, inr x)
      /\ result_array x = mk [1; 1; 1]%nat [5]%Q)
  /\ (exists tr x,
        apply no_blend no_files (shift None) (IObj ones333) (Some (RGrid unit_grid))
              0 "nearest" 5 true None = (tr, inr x)
        /\ result_array x = mk [1; 1; 1]%nat [1]%Q).
Proof.
  refine (@constant_boundary_scenario no_blend no_files (shift None) ones333 unit_grid
            true None [EvMap; EvIndex] eq_refl eq_refl eq_refl _).
  vm_compute. reflexivity.
Defined.

(** ** The further properties on concrete calls *)

Import MoreExamples.

(** X1, on a call: two sampled points as the reference. *)
Lemma result_on_samples_witness :
  exists res y,
    Bare (mk [2]%nat [1; 1]%Q) = Bare res
    /\ dense_map (identity None) (Some (RSamples two_points))
                 (T (s_ndcoords two_points)) = inr y
    /\ shape res = [rows y]
    /\ wf res.
Proof.
  refine (@result_on_samples no_blend no_files (identity None) (IObj ones333)
            (Some (RSamples two_points)) 0%Z "nearest" 0%Q true None
            [EvMap; EvIndex; EvMapCoordinates [3; 3; 3]%nat [3; 2]%nat; EvInterpolate]
            (Bare (mk [2]%nat [1; 1]%Q)) [] (Some (RSamples two_points)) two_points
            _ eq_refl).
  vm_compute. reflexivity.
Defined.

(** X2, on a call: a reference grid with an [int16] header, a [float64]
    source, no [output_dtype]. *)
Lemma result_image_metadata_witness :
  exists arr hdr,
    Moved (mk [1; 1; 1]%nat [1]%Q) eye4
          (Some (mk_header float64 "reference header"))
    = Moved arr (g_affine grid_with_header) hdr
    /\ wf arr
    /\ exists h', hdr = Some h'
                  /\ hdr_rest h' = "reference header"
                  /\ hdr_dtype h' = float64.
Proof.
  refine (@result_image_metadata no_blend no_files (shift None) (IObj ones333)
            (Some (RGrid grid_with_header)) 0%Z "nearest" 0%Q true None
            [EvMap; EvIndex; EvMapCoordinates [3; 3; 3]%nat [3; 1]%nat; EvInterpolate]
            (Moved (mk [1; 1; 1]%nat [1]%Q) eye4
                   (Some (mk_header float64 "reference header")))
            [] (Some (RGrid grid_with_header)) grid_with_header [] ones333
            _ eq_refl eq_refl).
  vm_compute. reflexivity.
Defined.

(** X3, on a call: one grid point, one mapped point. *)
Lemma one_point_per_grid_point_witness :
  exists y,
    dense_map (shift None) (Some (RGrid unit_grid)) (T (grid_ndcoords unit_grid))
    = inr y
    /\ rows y = prod (g_shape unit_grid).
Proof.
  refine (@one_point_per_grid_point no_blend no_files (shift None) (IObj ones333)
            (Some (RGrid unit_grid)) 0%Z "nearest" 0%Q true None
            [EvMap; EvIndex; EvMapCoordinates [3; 3; 3]%nat [3; 1]%nat; EvInterpolate]
            (Moved (mk [1; 1; 1]%nat [1]%Q) eye4 None)
            [] (Some (RGrid unit_grid)) unit_grid [] ones333
            _ eq_refl eq_refl _).
  - vm_compute. reflexivity.
  - unfold has_trailing_axis. vm_compute. lia.
Defined.

(** X5, on a call: the reference given as the path of a file. *)
Lemma reference_path_as_image_witness :
  apply no_blend one_file (identity None) (IObj vol1) (Some (RPath "ref.nii"))
        0 "nearest" 0 true None
  = (EvLoad "ref.nii"
       :: trace (apply no_blend one_file (identity None) (IObj vol1)
                       (Some (RImage vol1)) 0 "nearest" 0 true None),
     outcome (apply no_blend one_file (identity None) (IObj vol1)
                    (Some (RImage vol1)) 0 "nearest" 0 true None)).
Proof.
  exact (@reference_path_as_image no_blend one_file (identity None) (IObj vol1)
           "ref.nii" vol1 0%Z "nearest" 0%Q true None eq_refl).
Defined.

(** X6, on a call: no such file, and a transform with a reference of its
    own. *)
Lemma missing_reference_file_witness :
  apply no_blend no_files (identity (Some (RefGrid unit_grid))) (IObj vol1)
        (Some (RPath "ref.nii")) 0 "nearest" 0 true None
  = ([EvLoad "ref.nii"], inl (FileNotFoundError "ref.nii")).
Proof.
  exact (@missing_reference_file no_blend no_files
           (identity (Some (RefGrid unit_grid))) (IObj vol1)
           "ref.nii" 0%Z "nearest" 0%Q true None eq_refl).
Defined.

(** X7, on a call: the image given as the path of a file. *)
Lemma image_path_as_object_witness :
  outcome (apply no_blend two_files (shift None) (IPath "moving.nii")
                 (Some (RGrid unit_grid)) 0 "nearest" 0 true None)
  = outcome (apply no_blend two_files (shift None) (IObj ones333)
                   (Some (RGrid unit_grid)) 0 "nearest" 0 true None).
Proof.
  exact (proj1 (@image_path_as_object no_blend two_files (shift None) "moving.nii"
                  ones333 (Some (RGrid unit_grid)) 0%Z "nearest" 0%Q true None
                  eq_refl)).
Defined.

(** X8, on a call: both the reference and the image given as paths. *)
Lemma calls_of_a_successful_call_witness :
  exists t2 img coords_shape,
    load_image two_files (IPath "moving.nii") = (t2, inr img)
    /\ [EvLoad "ref.nii"; EvLoad "moving.nii"; EvMap; EvIndex;
        EvMapCoordinates [3; 3; 3]%nat [3; 1]%nat; EvInterpolate]
       = path_loads (Some (RPath "ref.nii")) (IPath "moving.nii")
         ++ mapping_calls two_files (shift None) (Some (RPath "ref.nii"))
         ++ EvMapCoordinates (shape (pad_components (shift None) (dataobj img)))
                             coords_shape
         :: numeric_calls 0 true.
Proof.
  refine (@calls_of_a_successful_call no_blend two_files (shift None)
            (IPath "moving.nii") (Some (RPath "ref.nii")) 0%Z "nearest" 0%Q true None
            [EvLoad "ref.nii"; EvLoad "moving.nii"; EvMap; EvIndex;
             EvMapCoordinates [3; 3; 3]%nat [3; 1]%nat; EvInterpolate]
            (Moved (mk [1; 1; 1]%nat [1]%Q) eye4 None) _).
  vm_compute. reflexivity.
Defined.

(** X9, on a call at order 1. *)
Lemma low_order_ignores_prefilter_witness :
  apply no_blend no_files (shift None) (IObj ones333) (Some (RGrid unit_grid))
        1 "nearest" 0 true None
  = apply no_blend no_files (shift None) (IObj ones333) (Some (RGrid unit_grid))
          1 "nearest" 0 false None.
Proof.
  refine (@low_order_ignores_prefilter no_blend no_files (shift None) (IObj ones333)
            (Some (RGrid unit_grid)) 1%Z "nearest" 0%Q None true false _).
  lia.
Defined.

(** X10, on a call in mode nearest. *)
Lemma nearest_ignores_cval_witness :
  apply no_blend no_files (shift None) (IObj ones333) (Some (RGrid unit_grid))
        0 "nearest" 0 true None
  = apply no_blend no_files (shift None) (IObj ones333) (Some (RGrid unit_grid))
          0 "nearest" 5 true None.
Proof.
  refine (@nearest_ignores_cval no_blend no_files (shift None) (IObj ones333)
            (Some (RGrid unit_grid)) "nearest" 0%Q 5%Q true None _ _);
    discriminate.
Defined.

(** X11, on a call: a series of three mappings on one grid point. *)
Lemma volume_targets_points_witness :
  exists raw targets,
    map_targets (series 4 3 None) vol3 (Some (RGrid unit_grid)) (RefGrid unit_grid)
    = ([EvMap; EvIndex], inr raw)
    /\ volume_targets (series 4 3 None) raw = ([], inr targets)
    /\ exists M0,
         shape raw = [g_ndim (grid_of_image vol3); M0]
         /\ forall j, (j < M0)%nat ->
              point targets j
              = firstn (g_ndim (grid_of_image vol3))
                       (skipn (j * g_ndim (grid_of_image vol3)) (flat raw))
                ++ [1%Q].
Proof.
  eexists _, _. split; [vm_compute; reflexivity |].
  split; [vm_compute; reflexivity |].
  refine (@volume_targets_points (series 4 3 None) vol3 (Some (RGrid unit_grid))
            (RefGrid unit_grid) [EvMap; EvIndex] _ [] _ eq_refl _ _).
  - vm_compute. reflexivity.
  - vm_compute. reflexivity.
Defined.

(** X12, on a call: three components under a transform of [ndim] 3 and
    length 3. *)
Lemma series_needs_ndim4_witness :
  exists tr e,
    apply no_blend no_files (series 3 3 None) (IObj vol3) (Some (RGrid unit_grid))
          0 "nearest" 0 true None = (tr, inl e).
Proof.
  refine (@series_needs_ndim4 no_blend no_files (series 3 3 None) (IObj vol3)
            (Some (RGrid unit_grid)) 0%Z "nearest" 0%Q true None [] vol3
            eq_refl _ _).
  - vm_compute. lia.
  - vm_compute. discriminate.
Defined.


(** X13, on a call: a single-sample volume under a series of two
    mappings, fill value 5/2, an [int8] result: both values are 3. *)
Lemma volume_under_series_is_filled_witness :
  exists x,
    outcome (apply no_blend no_files (series 4 2 None) (IObj vol1)
                   (Some (RGrid unit_grid)) 0 "constant" (5 # 2) true (Some int8))
    = inr x
    /\ Forall (fun v => v = interp_out int8 (5 # 2)) (flat (result_array x))
    /\ interp_out int8 (5 # 2) = 3%Q.
Proof.
  eexists. split; [vm_compute; reflexivity |]. split; [| vm_compute; reflexivity].
  refine (@volume_under_series_is_filled no_blend no_files (series 4 2 None)
            (IObj vol1) (Some (RGrid unit_grid)) (5 # 2)%Q true (Some int8)
            [EvMap; EvIndex; EvMapCoordinates [1; 1; 1; 1]%nat [4; 2]%nat;
             EvInterpolate]
            (Moved (mk [1; 1; 1; 2]%nat [3; 3]%Q) eye4 None) [] vol1
            _ eq_refl eq_refl eq_refl).
  vm_compute. reflexivity.
Defined.

(** X14, on a call: a 3-D volume, and a length of 7 in place of 1. *)
Lemma len_unused_off_rank4_witness :
  apply no_blend no_files (with_len (shift None) 7) (IObj ones333)
        (Some (RGrid unit_grid)) 0 "nearest" 0 true None
  = apply no_blend no_files (shift None) (IObj ones333)
          (Some (RGrid unit_grid)) 0 "nearest" 0 true None.
Proof.
  refine (@len_unused_off_rank4 no_blend no_files (shift None) 7%nat ones333
            (Some (RGrid unit_grid)) 0%Z "nearest" 0%Q true None _).
  vm_compute. discriminate.
Defined.
